(** * Gemini live chat: capture encoder, playback scheduler and session relay

    A shallow embedding of the browser client (the microphone worklet, the
    WebSocket message handler, [start], [stop] and [playLoop]) and of the
    relay's per-connection handlers of [Server/index.js], with the
    properties of the design document proved or refuted on them.

    JavaScript numbers are IEEE binary64 values: they are modelled by Rocq's
    primitive floats, which compute with the same rounding.  Byte buffers
    are lists of integers in [0, 255]. *)

From Stdlib Require Import ZArith List Floats Lia Bool String Ascii DecimalString.
Import ListNotations.

Local Open Scope Z_scope.

(** ** JavaScript numeric helpers *)

Module JsNum.

(** [Math.max] of two numbers: NaN if either is NaN, and [+0] above [-0]. *)
Definition Math_max (x y : float) : float :=
  if (is_nan x || is_nan y)%bool then nan
  else if (x <? y)%float then y
  else if (y <? x)%float then x
  else match classify x with NZero => y | _ => x end.

(** [Math.min] of two numbers: NaN if either is NaN, and [-0] below [+0]. *)
Definition Math_min (x y : float) : float :=
  if (is_nan x || is_nan y)%bool then nan
  else if (x <? y)%float then x
  else if (y <? x)%float then y
  else match classify x with NZero => x | _ => y end.

(** The integer part of a finite number, rounded towards minus infinity;
    [None] for NaN and the infinities. *)
Definition floorZ (x : float) : option Z :=
  match Prim2SF x with
  | S754_zero _ => Some 0
  | S754_finite s m e => Some (Z.shiftl (if s then Z.neg m else Z.pos m) e)
  | _ => None
  end.

(** The integer part of a number rounded towards zero, with NaN and the
    infinities sent to 0 (ECMAScript's ToIntegerOrInfinity, as far as the
    modular conversions below observe it). *)
Definition truncZ (x : float) : Z :=
  match Prim2SF x with
  | S754_finite s m e =>
      let mag := Z.shiftl (Z.pos m) e in if s then - mag else mag
  | _ => 0
  end.

(** ECMAScript's ToInt16: truncate, wrap modulo 2^16, read as signed. *)
Definition wrap16 (z : Z) : Z :=
  let u := z mod 65536 in if 32768 <=? u then u - 65536 else u.

Definition ToInt16 (x : float) : Z := wrap16 (truncZ x).

(** [DataView.prototype.setInt16(_, v, true)]: the two bytes written,
    low byte first. *)
Definition setInt16_le (x : float) : list Z :=
  let u := ToInt16 x mod 65536 in [u mod 256; u / 256].

(** [DataView.prototype.getInt16(_, true)] on two bytes. *)
Definition getInt16_le (lo hi : Z) : Z := wrap16 (lo + 256 * hi).

(** An integer in the signed 16-bit range as a number. *)
Definition float_of_int16 (k : Z) : float :=
  if k <? 0 then (- of_uint63 (Uint63.of_Z (- k)))%float
  else of_uint63 (Uint63.of_Z k).

(** *** Number::toString

    The text of a number: the fewest decimal digits that are read back as
    the same binary64 value, laid out as ECMAScript's Number::toString
    does for radix 10. *)

(** The decimal digits of a natural number. *)
Definition decimal (z : Z) : string :=
  NilZero.string_of_uint (N.to_uint (Z.to_N z)).

Fixpoint zeros (n : nat) : string :=
  match n with
  | O => EmptyString
  | S n => String "0" (zeros n)
  end.

(** [s * 10 ^ q] against [a * 2 ^ e]. *)
Definition against (s q a e : Z) : comparison :=
  Z.compare (s * 10 ^ Z.max q 0 * 2 ^ Z.max (- e) 0)
            (a * 2 ^ Z.max e 0 * 10 ^ Z.max (- q) 0).

(** The least [n] from [n] on with [a * 2 ^ e < 10 ^ n]. *)
Fixpoint magnitude (fuel : nat) (n a e : Z) : Z :=
  match fuel with
  | O => n
  | S fuel =>
      match against 1 n a e with
      | Gt => n
      | _ => magnitude fuel (n + 1) a e
      end
  end.

(** An exponent [n] with [10 ^ (n - 1) <= m * 2 ^ e], from the number of
    bits: 0.30103 is just above the logarithm of 2 to base 10. *)
Definition magnitude_from (m e : Z) : Z :=
  (Z.log2 m + e) * 30103 / 100000 - 1.

(** The integer part of [a * 2 ^ e / 10 ^ q]. *)
Definition quotient (q a e : Z) : Z :=
  (a * 2 ^ Z.max e 0 * 10 ^ Z.max (- q) 0) / (10 ^ Z.max q 0 * 2 ^ Z.max (- e) 0).

(** Whether [s * 10 ^ q] is read back as the number of mantissa [m] and
    exponent [e]: it lies between the midpoints to the two neighbours,
    the midpoints included when [m] is even.  In quarters of the unit
    [2 ^ e] the number is [4 * m], and the neighbour below is half as far
    when [m] is the least mantissa of its exponent. *)
Definition reads_back (s q m e : Z) : bool :=
  let low := if ((m =? 2 ^ 52) && (-1074 <? e))%bool then 4 * m - 1 else 4 * m - 2 in
  let high := 4 * m + 2 in
  match against s q low (e - 2), against s q high (e - 2) with
  | Gt, Lt => true
  | Eq, Lt | Gt, Eq => Z.even m
  | _, _ => false
  end.

Definition carry (k n s : Z) : Z * Z :=
  if s =? 10 ^ k then (1, n + 1) else (s, n).

(** The digits [s] and the exponent [n] of Number::toString: the fewest
    digits [k] for which [s * 10 ^ (n - k)] is read back as the number,
    and of the two candidates next to the number the nearer one, the
    even one when they are as near. *)
Fixpoint shortest (fuel : nat) (k n m e : Z) : Z * Z :=
  let q := n - k in
  let s := quotient q (4 * m) (e - 2) in
  match fuel with
  | O => (s, n)
  | S fuel =>
      match reads_back s q m e, reads_back (s + 1) q m e with
      | true, true =>
          match against (2 * s + 1) q (8 * m) (e - 2) with
          | Gt => (s, n)
          | Lt => carry k n (s + 1)
          | Eq => if Z.even s then (s, n) else carry k n (s + 1)
          end
      | true, false => (s, n)
      | false, true => carry k n (s + 1)
      | false, false => shortest fuel (k + 1) n m e
      end
  end.

(** Number::toString of a positive finite number, steps 7 to 11. *)
Definition positive_text (m e : Z) : string :=
  let n0 := magnitude 8 (magnitude_from m e) (4 * m) (e - 2) in
  let (s, n) := shortest 17 1 n0 m e in
  let digits := decimal s in
  let k := Z.of_nat (String.length digits) in
  if ((k <=? n) && (n <=? 21))%bool then
    (digits ++ zeros (Z.to_nat (n - k)))%string
  else if ((0 <? n) && (n <=? 21))%bool then
    (substring 0 (Z.to_nat n) digits ++ "."
     ++ substring (Z.to_nat n) (Z.to_nat (k - n)) digits)%string
  else if ((-6 <? n) && (n <=? 0))%bool then
    ("0." ++ zeros (Z.to_nat (- n)) ++ digits)%string
  else
    let exponent :=
      ((if (n - 1 <? 0)%Z then "-" else "+") ++ decimal (Z.abs (n - 1)))%string in
    if k =? 1 then (digits ++ "e" ++ exponent)%string
    else (substring 0 1 digits ++ "." ++ substring 1 (Z.to_nat (k - 1)) digits
          ++ "e" ++ exponent)%string.

Definition Number_toString (x : float) : string :=
  match Prim2SF x with
  | S754_nan => "NaN"%string
  | S754_zero _ => "0"%string
  | S754_infinity sign => (if sign then "-Infinity" else "Infinity")%string
  | S754_finite sign m e =>
      ((if sign then "-" else EmptyString) ++ positive_text (Z.pos m) e)%string
  end.

End JsNum.

(** ** The microphone worklet ([MicWorklet] inside [micProcessor]) *)

Module MicWorklet.
Import JsNum.

Record worklet := {
  _resampleBuffer : list float;
  _sourceRate : float;
  _targetRate : float;
  _ratio : float;
  _acc : float
}.

(** [constructor()]: [sampleRate] is the global of the audio worklet scope
    (48000 for the context [setupAudioWorklet] creates). *)
Definition constructor (sampleRate : float) : worklet :=
  {| _resampleBuffer := [];
     _sourceRate := sampleRate;
     _targetRate := 16000%float;
     _ratio := (sampleRate / 16000)%float;
     _acc := 0%float |}.

(** Lines 55-56: clamp to [-1, 1], then scale by 0x8000 below zero and by
    0x7FFF otherwise. *)
Definition clamp (sample : float) : float :=
  Math_max (-1)%float (Math_min 1%float sample).

Definition quantize (sample : float) : float :=
  let s := clamp sample in
  if (s <? 0)%float then (s * 32768)%float else (s * 32767)%float.

(** Lines 49-60, the loop over the channel: the accumulator after the
    loop and the samples pushed on [_resampleBuffer], in order.  [ch[idx]]
    with [idx = Math.floor(i)] is the current element. *)
Fixpoint resample (ratio acc : float) (ch : list float) : float * list float :=
  match ch with
  | [] => (acc, [])
  | sample :: rest =>
      let acc1 := (acc + 1)%float in
      if (ratio <=? acc1)%float then
        let (acc', out) := resample ratio (acc1 - ratio)%float rest in
        (acc', quantize sample :: out)
      else resample ratio acc1 rest
  end.

(** Line 63: [Math.floor(0.02 * this._targetRate)].  The literal is the
    binary64 value nearest to 0.02. *)
Definition samplesPerChunk (w : worklet) : option Z :=
  floorZ (0x1.47ae147ae147bp-6 * _targetRate w)%float.

(** Lines 66-70: a chunk of numbers written as 16-bit little-endian. *)
Definition encode_chunk (chunk : list float) : list Z :=
  flat_map setInt16_le chunk.

(** Lines 64-72, the [while] loop: the buffers posted, in order, and what
    is left of [_resampleBuffer].  [splice(0, n)] removes and returns the
    first [n] elements (none when [n <= 0]).  The loop need not end (it
    does not when [n <= 0]): [None] is running out of [fuel]. *)
Fixpoint emit_chunks (fuel : nat) (n : Z) (buf : list float)
  : option (list (list Z) * list float) :=
  if Z.of_nat (List.length buf) <? n then Some ([], buf)
  else match fuel with
       | O => None
       | S fuel' =>
           let k := Z.to_nat n in
           match emit_chunks fuel' n (skipn k buf) with
           | Some (posted, rest) => Some (encode_chunk (firstn k buf) :: posted, rest)
           | None => None
           end
       end.

(** [process(inputs)]: the worklet afterwards and the buffers posted on
    the port; the function itself always returns [true].  [inputs[0]] is
    undefined for an empty [inputs], [input[0]] for an empty [input].
    A comparison with NaN is false, so the loop is skipped when
    [samplesPerChunk] is not a number.  [None] stands for a call that
    never returns. *)
Definition process (w : worklet) (inputs : list (list (list float)))
  : option (worklet * list (list Z)) :=
  match inputs with
  | [] => Some (w, [])
  | [] :: _ => Some (w, [])
  | (ch :: _) :: _ =>
      let (acc', pushed) := resample (_ratio w) (_acc w) ch in
      let buf := _resampleBuffer w ++ pushed in
      let finish rest :=
        {| _resampleBuffer := rest; _sourceRate := _sourceRate w;
           _targetRate := _targetRate w; _ratio := _ratio w; _acc := acc' |} in
      match samplesPerChunk w with
      | None => Some (finish buf, [])
      | Some n =>
          match emit_chunks (S (List.length buf)) n buf with
          | Some (posted, rest) => Some (finish rest, posted)
          | None => None
          end
      end
  end.

(** A sequence of [process] calls, collecting everything posted. *)
Fixpoint run (w : worklet) (calls : list (list (list (list float))))
  : option (worklet * list (list Z)) :=
  match calls with
  | [] => Some (w, [])
  | inputs :: more =>
      match process w inputs with
      | None => None
      | Some (w1, posted) =>
          match run w1 more with
          | None => None
          | Some (w2, posted') => Some (w2, posted ++ posted')
          end
      end
  end.

(** The samples a call consumes: channel 0 of input 0, when there is one. *)
Definition consumed (inputs : list (list (list float))) : list float :=
  match inputs with
  | (ch :: _) :: _ => ch
  | _ => []
  end.

(** The 16-bit samples a posted buffer holds. *)
Fixpoint frame_samples (bytes : list Z) : list Z :=
  match bytes with
  | lo :: hi :: rest => getInt16_le lo hi :: frame_samples rest
  | _ => []
  end.

(** Every third element of a stream, starting with the one at index
    [2 - k] (for [k < 3] samples already counted). *)
Fixpoint every_third {A : Type} (k : nat) (l : list A) : list A :=
  match l with
  | [] => []
  | x :: rest =>
      match k with
      | 2%nat => x :: every_third 0 rest
      | _ => every_third (S k) rest
      end
  end.

(** The accumulator after [k] samples counted since the last output. *)
Definition acc_of (k : nat) : float :=
  match k with
  | 0%nat => 0%float
  | 1%nat => 1%float
  | _ => 2%float
  end.

(** *** Predicates for the statements below *)

(** What a call of the loop that ends leaves behind. *)
Definition chunked (n : Z) (buf : list float)
    (posted : list (list Z)) (rest : list float) : Prop :=
  Forall (fun frame => List.length frame = (2 * Z.to_nat n)%nat
                       /\ List.length (frame_samples frame) = Z.to_nat n) posted
  /\ Z.of_nat (List.length rest) < n
  /\ flat_map frame_samples posted ++ map ToInt16 rest = map ToInt16 buf
  /\ exists taken, buf = taken ++ rest
       /\ List.length taken = (List.length posted * Z.to_nat n)%nat.

(** What calls that consume [stream] make of the worklet [w]: the
    accumulator follows the decimation loop, every buffer posted holds
    exactly 320 samples in 640 bytes, and the samples posted followed by
    the ones still buffered are the ones buffered before followed by the
    ones the loop kept, in this order. *)
Definition encoded (w : worklet) (stream : list float)
    (w' : worklet) (posted : list (list Z)) : Prop :=
  let out := resample (_ratio w) (_acc w) stream in
  _ratio w' = _ratio w /\ _targetRate w' = _targetRate w
  /\ _acc w' = fst out
  /\ Forall (fun frame => List.length frame = 640%nat
                          /\ List.length (frame_samples frame) = 320%nat) posted
  /\ flat_map frame_samples posted ++ map ToInt16 (_resampleBuffer w')
     = map ToInt16 (_resampleBuffer w ++ snd out)
  /\ exists taken,
       _resampleBuffer w ++ snd out = taken ++ _resampleBuffer w'
       /\ List.length taken = (320 * List.length posted)%nat.

End MicWorklet.

(** ** JavaScript values, as [JSON.parse] and property reads produce them *)

Module Js.

#[warnings="-register-all"]
Inductive value :=
| VUndefined
| VNull
| VBool (b : bool)
| VNum (x : float)
| VStr (s : string)
| VArr (elems : list value)
| VObj (fields : list (string * value)).

(** An object's own property.  The list is the object as parsed: the
    binding found first is the one that counts. *)
Fixpoint own (k : string) (fields : list (string * value)) : value :=
  match fields with
  | [] => VUndefined
  | (k', v) :: rest => if String.eqb k k' then v else own k rest
  end.

(** [v.k] for the property names the handlers read by name
    ([setupComplete], [serverContent], [interrupted], [modelTurn],
    [parts], [inlineData], [data], [outputTranscription], [text]): none
    of them is a property of an array, a string, a number or a boolean.
    Reading a property of [null] or [undefined] throws: [None]. *)
Definition get (v : value) (k : string) : option value :=
  match v with
  | VUndefined | VNull => None
  | VObj fields => Some (own k fields)
  | _ => Some VUndefined
  end.

(** ToBoolean. *)
Definition truthy (v : value) : bool :=
  match v with
  | VUndefined | VNull => false
  | VBool b => b
  | VNum x => negb (is_zero x || is_nan x)
  | VStr s => negb (String.eqb s EmptyString)
  | VArr _ | VObj _ => true
  end.

(** Whether [v.length] is truthy, for a truthy [v]. *)
Definition length_truthy (v : value) : bool :=
  match v with
  | VArr elems => match elems with [] => false | _ => true end
  | VStr s => negb (String.eqb s EmptyString)
  | VObj fields => truthy (own "length" fields)
  | _ => false
  end.

(** [v[0]], for a truthy [v]. *)
Definition index0 (v : value) : value :=
  match v with
  | VArr elems => match elems with [] => VUndefined | e :: _ => e end
  | VStr s => match s with EmptyString => VUndefined | String c _ => VStr (String c EmptyString) end
  | VObj fields => own "0" fields
  | _ => VUndefined
  end.

(** ToString, [None] where it throws.  An array is joined with commas,
    [null] and [undefined] elements giving nothing.  An object as parsed
    from JSON has no method of its own: one with a property [toString]
    hides [Object.prototype.toString] by something that cannot be called,
    and the conversion throws a TypeError; any other one gives
    ["[object Object]"]. *)
Fixpoint to_string (v : value) : option string :=
  match v with
  | VUndefined => Some "undefined"%string
  | VNull => Some "null"%string
  | VBool b => Some (if b then "true" else "false")%string
  | VNum x => Some (JsNum.Number_toString x)
  | VStr s => Some s
  | VArr elems =>
      (fix join (l : list value) : option string :=
         match l with
         | [] => Some EmptyString
         | e :: rest =>
             let first := match e with
                          | VUndefined | VNull => Some EmptyString
                          | _ => to_string e
                          end in
             match first, join rest with
             | Some a, Some b =>
                 Some (match rest with
                       | [] => a
                       | _ :: _ => a ++ "," ++ b
                       end)%string
             | _, _ => None
             end
         end) elems
  | VObj fields =>
      if existsb (fun kv => String.eqb (fst kv) "toString") fields then None
      else Some "[object Object]"%string
  end.

End Js.

(** ** [atob]: the forgiving base64 decoding of the HTML standard *)

Module Base64.

Definition is_space (c : ascii) : bool :=
  let n := N_of_ascii c in
  ((n =? 9) || (n =? 10) || (n =? 12) || (n =? 13) || (n =? 32))%N.

Definition digit (c : ascii) : option N :=
  let n := N_of_ascii c in
  if ((65 <=? n) && (n <=? 90))%N then Some (n - 65)%N
  else if ((97 <=? n) && (n <=? 122))%N then Some (n - 71)%N
  else if ((48 <=? n) && (n <=? 57))%N then Some (n + 4)%N
  else if (n =? 43)%N then Some 62%N
  else if (n =? 47)%N then Some 63%N
  else None.

Fixpoint digits (cs : list ascii) : option (list N) :=
  match cs with
  | [] => Some []
  | c :: rest =>
      match digit c, digits rest with
      | Some d, Some ds => Some (d :: ds)
      | _, _ => None
      end
  end.

(** Four digits make three bytes; a final group of two or three digits
    makes one or two, its spare bits dropped. *)
Fixpoint bytes_of_digits (ds : list N) : list N :=
  match ds with
  | a :: b :: c :: d :: rest =>
      let n := (a * 262144 + b * 4096 + c * 64 + d)%N in
      (n / 65536 :: (n / 256) mod 256 :: n mod 256 :: bytes_of_digits rest)%N
  | [a; b; c] =>
      let n := (a * 4096 + b * 64 + c)%N in
      [n / 1024; (n / 4) mod 256]%N
  | [a; b] => [(a * 64 + b) / 16]%N
  | _ => []
  end.

Definition is_pad (c : ascii) : bool := (N_of_ascii c =? 61)%N.

(** Drop one or two trailing padding characters (given reversed). *)
Definition strip_padding (rev_cs : list ascii) : list ascii :=
  match rev_cs with
  | p :: q :: rest =>
      if is_pad p then (if is_pad q then rest else q :: rest) else rev_cs
  | [p] => if is_pad p then [] else rev_cs
  | [] => []
  end.

(** [atob(s)]: the binary string, or [None] where [atob] throws. *)
Definition atob (s : string) : option string :=
  let cs := filter (fun c => negb (is_space c)) (list_ascii_of_string s) in
  let cs := if (Nat.modulo (List.length cs) 4 =? 0)%nat
            then rev (strip_padding (rev cs)) else cs in
  if (Nat.modulo (List.length cs) 4 =? 1)%nat then None
  else match digits cs with
       | None => None
       | Some ds =>
           Some (string_of_list_ascii (map ascii_of_N (bytes_of_digits ds)))
       end.

End Base64.

(** ** The browser client: message handler, [start], [stop], [playLoop] *)

Module Client.
Import JsNum Js.
Local Open Scope string_scope.

(** A suspended call of [playLoop]: at the [await] of the 10 ms timer, or
    at the [await] of [onended] of the buffer it started. *)
Inductive loop_wait :=
| WaitTimer
| WaitEnded (buf : list float).

(** A suspended call of [start]: at the [await] of [getUserMedia], or at
    the [await] of [addModule] inside [setupAudioWorklet], called on the
    audio context [ctx] that this call has created. *)
Inductive start_wait :=
| AwaitUserMedia
| AwaitModule (ctx : nat).

(** What [ws?.send] transmits. *)
Inductive outbound :=
| Greeting.

(** The script's globals, the page elements it writes, its suspended
    calls, and the record of what it handed to the outside: sockets it
    opened and closed, the sockets whose [open] event has been dispatched
    (the others it holds are still connecting), audio contexts, the
    audio contexts in which the worklet module has registered its
    processor, and the buffers started on the output device, oldest
    first.  The microphone
    stream that [getUserMedia] gives is a local constant of [start],
    which no function of the script stops; it is not recorded. *)
Record client := {
  ws : option nat;
  audioCtx : option nat;
  workletNode : option nat;
  playbackQueue : list (list Z);
  playing : bool;
  statusText : string;
  logText : list string;
  startDisabled : bool;
  stopDisabled : bool;
  loops : list loop_wait;
  starts : list start_wait;
  socketsOpened : nat;
  socketsClosed : list nat;
  socketsReady : list nat;
  contextsOpened : nat;
  contextsClosed : list nat;
  contextsLoaded : list nat;
  nodesCreated : nat;
  sent : list (nat * outbound);
  played : list (list float);
  warnings : nat
}.

(** The page as loaded; the status text and the buttons' states come from
    the markup. *)
Definition initial (status : string) (startOff stopOff : bool) : client :=
  {| ws := None; audioCtx := None; workletNode := None;
     playbackQueue := []; playing := false;
     statusText := status; logText := [];
     startDisabled := startOff; stopDisabled := stopOff;
     loops := []; starts := [];
     socketsOpened := 0; socketsClosed := []; socketsReady := [];
     contextsOpened := 0; contextsClosed := []; contextsLoaded := [];
     nodesCreated := 0; sent := []; played := []; warnings := 0 |}.

Definition set_ws (v : option nat) (s : client) : client :=
  {| ws := v; audioCtx := audioCtx s; workletNode := workletNode s;
     playbackQueue := playbackQueue s; playing := playing s;
     statusText := statusText s; logText := logText s;
     startDisabled := startDisabled s; stopDisabled := stopDisabled s;
     loops := loops s; starts := starts s;
     socketsOpened := socketsOpened s; socketsClosed := socketsClosed s;
     socketsReady := socketsReady s;
     contextsOpened := contextsOpened s; contextsClosed := contextsClosed s;
     contextsLoaded := contextsLoaded s;
     nodesCreated := nodesCreated s; sent := sent s; played := played s;
     warnings := warnings s |}.

Definition set_queue (q : list (list Z)) (s : client) : client :=
  {| ws := ws s; audioCtx := audioCtx s; workletNode := workletNode s;
     playbackQueue := q; playing := playing s;
     statusText := statusText s; logText := logText s;
     startDisabled := startDisabled s; stopDisabled := stopDisabled s;
     loops := loops s; starts := starts s;
     socketsOpened := socketsOpened s; socketsClosed := socketsClosed s;
     socketsReady := socketsReady s;
     contextsOpened := contextsOpened s; contextsClosed := contextsClosed s;
     contextsLoaded := contextsLoaded s;
     nodesCreated := nodesCreated s; sent := sent s; played := played s;
     warnings := warnings s |}.

Definition set_playing (b : bool) (s : client) : client :=
  {| ws := ws s; audioCtx := audioCtx s; workletNode := workletNode s;
     playbackQueue := playbackQueue s; playing := b;
     statusText := statusText s; logText := logText s;
     startDisabled := startDisabled s; stopDisabled := stopDisabled s;
     loops := loops s; starts := starts s;
     socketsOpened := socketsOpened s; socketsClosed := socketsClosed s;
     socketsReady := socketsReady s;
     contextsOpened := contextsOpened s; contextsClosed := contextsClosed s;
     contextsLoaded := contextsLoaded s;
     nodesCreated := nodesCreated s; sent := sent s; played := played s;
     warnings := warnings s |}.

Definition set_status (t : string) (s : client) : client :=
  {| ws := ws s; audioCtx := audioCtx s; workletNode := workletNode s;
     playbackQueue := playbackQueue s; playing := playing s;
     statusText := t; logText := logText s;
     startDisabled := startDisabled s; stopDisabled := stopDisabled s;
     loops := loops s; starts := starts s;
     socketsOpened := socketsOpened s; socketsClosed := socketsClosed s;
     socketsReady := socketsReady s;
     contextsOpened := contextsOpened s; contextsClosed := contextsClosed s;
     contextsLoaded := contextsLoaded s;
     nodesCreated := nodesCreated s; sent := sent s; played := played s;
     warnings := warnings s |}.

(** [log(msg)]: one more line of the log element (the time stamp left
    out). *)
Definition log (msg : string) (s : client) : client :=
  {| ws := ws s; audioCtx := audioCtx s; workletNode := workletNode s;
     playbackQueue := playbackQueue s; playing := playing s;
     statusText := statusText s; logText := logText s ++ [msg];
     startDisabled := startDisabled s; stopDisabled := stopDisabled s;
     loops := loops s; starts := starts s;
     socketsOpened := socketsOpened s; socketsClosed := socketsClosed s;
     socketsReady := socketsReady s;
     contextsOpened := contextsOpened s; contextsClosed := contextsClosed s;
     contextsLoaded := contextsLoaded s;
     nodesCreated := nodesCreated s; sent := sent s; played := played s;
     warnings := warnings s |}.

Definition set_buttons (startOff stopOff : bool) (s : client) : client :=
  {| ws := ws s; audioCtx := audioCtx s; workletNode := workletNode s;
     playbackQueue := playbackQueue s; playing := playing s;
     statusText := statusText s; logText := logText s;
     startDisabled := startOff; stopDisabled := stopOff;
     loops := loops s; starts := starts s;
     socketsOpened := socketsOpened s; socketsClosed := socketsClosed s;
     socketsReady := socketsReady s;
     contextsOpened := contextsOpened s; contextsClosed := contextsClosed s;
     contextsLoaded := contextsLoaded s;
     nodesCreated := nodesCreated s; sent := sent s; played := played s;
     warnings := warnings s |}.

Definition set_loops (l : list loop_wait) (s : client) : client :=
  {| ws := ws s; audioCtx := audioCtx s; workletNode := workletNode s;
     playbackQueue := playbackQueue s; playing := playing s;
     statusText := statusText s; logText := logText s;
     startDisabled := startDisabled s; stopDisabled := stopDisabled s;
     loops := l; starts := starts s;
     socketsOpened := socketsOpened s; socketsClosed := socketsClosed s;
     socketsReady := socketsReady s;
     contextsOpened := contextsOpened s; contextsClosed := contextsClosed s;
     contextsLoaded := contextsLoaded s;
     nodesCreated := nodesCreated s; sent := sent s; played := played s;
     warnings := warnings s |}.

Definition set_starts (l : list start_wait) (s : client) : client :=
  {| ws := ws s; audioCtx := audioCtx s; workletNode := workletNode s;
     playbackQueue := playbackQueue s; playing := playing s;
     statusText := statusText s; logText := logText s;
     startDisabled := startDisabled s; stopDisabled := stopDisabled s;
     loops := loops s; starts := l;
     socketsOpened := socketsOpened s; socketsClosed := socketsClosed s;
     socketsReady := socketsReady s;
     contextsOpened := contextsOpened s; contextsClosed := contextsClosed s;
     contextsLoaded := contextsLoaded s;
     nodesCreated := nodesCreated s; sent := sent s; played := played s;
     warnings := warnings s |}.

(** [console.warn] in the handler's [catch]. *)
Definition warn (s : client) : client :=
  {| ws := ws s; audioCtx := audioCtx s; workletNode := workletNode s;
     playbackQueue := playbackQueue s; playing := playing s;
     statusText := statusText s; logText := logText s;
     startDisabled := startDisabled s; stopDisabled := stopDisabled s;
     loops := loops s; starts := starts s;
     socketsOpened := socketsOpened s; socketsClosed := socketsClosed s;
     socketsReady := socketsReady s;
     contextsOpened := contextsOpened s; contextsClosed := contextsClosed s;
     contextsLoaded := contextsLoaded s;
     nodesCreated := nodesCreated s; sent := sent s; played := played s;
     warnings := S (warnings s) |}.

(** [src.start()] on a buffer: one more entry of the device's record. *)
Definition start_source (buf : list float) (s : client) : client :=
  {| ws := ws s; audioCtx := audioCtx s; workletNode := workletNode s;
     playbackQueue := playbackQueue s; playing := playing s;
     statusText := statusText s; logText := logText s;
     startDisabled := startDisabled s; stopDisabled := stopDisabled s;
     loops := loops s; starts := starts s;
     socketsOpened := socketsOpened s; socketsClosed := socketsClosed s;
     socketsReady := socketsReady s;
     contextsOpened := contextsOpened s; contextsClosed := contextsClosed s;
     contextsLoaded := contextsLoaded s;
     nodesCreated := nodesCreated s; sent := sent s; played := played s ++ [buf];
     warnings := warnings s |}.

Definition set_audioCtx (v : option nat) (s : client) : client :=
  {| ws := ws s; audioCtx := v; workletNode := workletNode s;
     playbackQueue := playbackQueue s; playing := playing s;
     statusText := statusText s; logText := logText s;
     startDisabled := startDisabled s; stopDisabled := stopDisabled s;
     loops := loops s; starts := starts s;
     socketsOpened := socketsOpened s; socketsClosed := socketsClosed s;
     socketsReady := socketsReady s;
     contextsOpened := contextsOpened s; contextsClosed := contextsClosed s;
     contextsLoaded := contextsLoaded s;
     nodesCreated := nodesCreated s; sent := sent s; played := played s;
     warnings := warnings s |}.

Definition set_workletNode (v : option nat) (s : client) : client :=
  {| ws := ws s; audioCtx := audioCtx s; workletNode := v;
     playbackQueue := playbackQueue s; playing := playing s;
     statusText := statusText s; logText := logText s;
     startDisabled := startDisabled s; stopDisabled := stopDisabled s;
     loops := loops s; starts := starts s;
     socketsOpened := socketsOpened s; socketsClosed := socketsClosed s;
     socketsReady := socketsReady s;
     contextsOpened := contextsOpened s; contextsClosed := contextsClosed s;
     contextsLoaded := contextsLoaded s;
     nodesCreated := nodesCreated s; sent := sent s; played := played s;
     warnings := warnings s |}.

(** The outside's record: one more socket, context or node created, a
    socket or context closed, a message sent. *)
Definition note_created (sockets contexts nodes : nat) (s : client) : client :=
  {| ws := ws s; audioCtx := audioCtx s; workletNode := workletNode s;
     playbackQueue := playbackQueue s; playing := playing s;
     statusText := statusText s; logText := logText s;
     startDisabled := startDisabled s; stopDisabled := stopDisabled s;
     loops := loops s; starts := starts s;
     socketsOpened := socketsOpened s + sockets; socketsClosed := socketsClosed s;
     socketsReady := socketsReady s;
     contextsOpened := contextsOpened s + contexts; contextsClosed := contextsClosed s;
     contextsLoaded := contextsLoaded s;
     nodesCreated := nodesCreated s + nodes; sent := sent s; played := played s;
     warnings := warnings s |}.

Definition note_closed (sockets contexts : list nat) (s : client) : client :=
  {| ws := ws s; audioCtx := audioCtx s; workletNode := workletNode s;
     playbackQueue := playbackQueue s; playing := playing s;
     statusText := statusText s; logText := logText s;
     startDisabled := startDisabled s; stopDisabled := stopDisabled s;
     loops := loops s; starts := starts s;
     socketsOpened := socketsOpened s; socketsClosed := socketsClosed s ++ sockets;
     socketsReady := socketsReady s;
     contextsOpened := contextsOpened s; contextsClosed := contextsClosed s ++ contexts;
     contextsLoaded := contextsLoaded s;
     nodesCreated := nodesCreated s; sent := sent s; played := played s;
     warnings := warnings s |}.

Definition note_ready (id : nat) (s : client) : client :=
  {| ws := ws s; audioCtx := audioCtx s; workletNode := workletNode s;
     playbackQueue := playbackQueue s; playing := playing s;
     statusText := statusText s; logText := logText s;
     startDisabled := startDisabled s; stopDisabled := stopDisabled s;
     loops := loops s; starts := starts s;
     socketsOpened := socketsOpened s; socketsClosed := socketsClosed s;
     socketsReady := socketsReady s ++ [id];
     contextsOpened := contextsOpened s; contextsClosed := contextsClosed s;
     contextsLoaded := contextsLoaded s;
     nodesCreated := nodesCreated s; sent := sent s; played := played s;
     warnings := warnings s |}.

Definition note_loaded (ctx : nat) (s : client) : client :=
  {| ws := ws s; audioCtx := audioCtx s; workletNode := workletNode s;
     playbackQueue := playbackQueue s; playing := playing s;
     statusText := statusText s; logText := logText s;
     startDisabled := startDisabled s; stopDisabled := stopDisabled s;
     loops := loops s; starts := starts s;
     socketsOpened := socketsOpened s; socketsClosed := socketsClosed s;
     socketsReady := socketsReady s;
     contextsOpened := contextsOpened s; contextsClosed := contextsClosed s;
     contextsLoaded := contextsLoaded s ++ [ctx];
     nodesCreated := nodesCreated s; sent := sent s; played := played s;
     warnings := warnings s |}.

Definition note_sent (m : nat * outbound) (s : client) : client :=
  {| ws := ws s; audioCtx := audioCtx s; workletNode := workletNode s;
     playbackQueue := playbackQueue s; playing := playing s;
     statusText := statusText s; logText := logText s;
     startDisabled := startDisabled s; stopDisabled := stopDisabled s;
     loops := loops s; starts := starts s;
     socketsOpened := socketsOpened s; socketsClosed := socketsClosed s;
     socketsReady := socketsReady s;
     contextsOpened := contextsOpened s; contextsClosed := contextsClosed s;
     contextsLoaded := contextsLoaded s;
     nodesCreated := nodesCreated s; sent := sent s ++ [m]; played := played s;
     warnings := warnings s |}.

(** *** The drain loop, lines 190-217 *)

(** Lines 201-207: 16-bit little-endian samples to numbers, [s / 0x8000]
    (exact, also as the 32-bit floats of the [Float32Array]). *)
Fixpoint pcm16_to_f32 (bytes : list Z) : list float :=
  match bytes with
  | lo :: hi :: rest =>
      (float_of_int16 (getInt16_le lo hi) / 32768)%float :: pcm16_to_f32 rest
  | _ => []
  end.

(** A chunk the loop body gets through: an odd byte length makes
    [getInt16] read past the end, and [createBuffer] refuses length 0. *)
Definition decodable (bytes : list Z) : bool :=
  (Nat.even (List.length bytes) && negb (Nat.eqb (List.length bytes) 0))%bool.

(** From the test of [while (playing)] to the next [await] or to the end
    of the call: the state, and where the call is suspended ([None] when
    it has ended, by leaving the loop or by an exception, which rejects
    the promise nobody reads). *)
Definition drain (s : client) : client * option loop_wait :=
  if playing s then
    match playbackQueue s with
    | [] => (s, Some WaitTimer)
    | bytes :: rest =>
        let s1 := set_queue rest s in
        match audioCtx s with
        | Some _ =>
            if decodable bytes then
              let buf := pcm16_to_f32 bytes in
              (start_source buf s1, Some (WaitEnded buf))
            else (s1, None)
        | None => (s1, None)
        end
    end
  else (s, None).

(** A call [playLoop()], up to its first [await]. *)
Definition playLoop (s : client) : client :=
  match audioCtx s with
  | None => s
  | Some _ =>
      let (s1, w) := drain s in
      match w with
      | Some w => set_loops (loops s1 ++ [w]) s1
      | None => s1
      end
  end.

(** The [k]-th suspended call replaced by its new state, or removed. *)
Definition put {A : Type} (k : nat) (w : option A) (l : list A) : list A :=
  firstn k l ++ match w with Some x => [x] | None => [] end ++ skipn (S k) l.

(** The timer of the [k]-th suspended call fires: line 197, then the
    loop again. *)
Definition on_timer (k : nat) (s : client) : client :=
  match nth_error (loops s) k with
  | Some WaitTimer =>
      match ws s with
      | None => set_loops (put k None (loops s)) s
      | Some _ =>
          let (s1, w) := drain s in set_loops (put k w (loops s1)) s1
      end
  | _ => s
  end.

(** The buffer of the [k]-th suspended call has ended. *)
Definition on_ended (k : nat) (s : client) : client :=
  match nth_error (loops s) k with
  | Some (WaitEnded _) =>
      let (s1, w) := drain s in set_loops (put k w (loops s1)) s1
  | _ => s
  end.

(** *** [stop], lines 177-187 *)

Definition stop (s : client) : client :=
  let s := match ws s with
           | Some id => set_ws None (note_closed [id] [] s)
           | None => s
           end in
  let s := match workletNode s with
           | Some _ => set_workletNode None s
           | None => s
           end in
  let s := match audioCtx s with
           | Some id => set_audioCtx None (note_closed [] [id] s)
           | None => s
           end in
  log "Stopped."
    (set_status "idle"
       (set_buttons false true (set_playing false (set_queue [] s)))).

(** *** What the browser supplies *)

Record platform := {
  (** [atob]; [None] where it throws *)
  atob : string -> option string;
  (** ToString of a value that is not a string; [None] where it throws *)
  show : value -> option string;
  (** the message of the TypeError of [new AudioWorkletNode(null, _)] *)
  typeErrorMessage : string;
  (** the message of the InvalidStateError of [new AudioWorkletNode] on a
      context in which no module has registered the processor's name *)
  unknownProcessorMessage : string;
  (** the message of the InvalidStateError of [send] on a socket that
      is still connecting *)
  invalidStateMessage : string
}.

Section Handlers.
Variable pf : platform.

Definition ToString (v : value) : option string :=
  match v with
  | VStr s => Some s
  | _ => show pf v
  end.

(** [Uint8Array.from(binary, c => c.charCodeAt(0))]. *)
Definition bytes_of_binary (binary : string) : list Z :=
  map (fun c => Z.of_N (N_of_ascii c)) (list_ascii_of_string binary).

(** *** The message handler, lines 102-141 *)

(** Lines 119-125, which read the message only: the chunk decoded from
    the first part, nothing, or an exception. *)
Inductive extraction :=
| NoAudio
| Audio (bytes : list Z)
| Raises.

Definition inline_audio (mt : value) : extraction :=
  if truthy mt then
    match get mt "parts" with
    | None => Raises
    | Some parts =>
        if (truthy parts && length_truthy parts)%bool then
          let part := index0 parts in
          match get part "inlineData" with
          | None => Raises
          | Some inlineData =>
              if truthy inlineData then
                match get inlineData "data" with
                | None => Raises
                | Some b64 =>
                    if truthy b64 then
                      match ToString b64 with
                      | None => Raises
                      | Some text =>
                          match atob pf text with
                          | None => Raises
                          | Some binary => Audio (bytes_of_binary binary)
                          end
                      end
                    else NoAudio
                end
              else NoAudio
          end
        else NoAudio
    end
  else NoAudio.

(** What lines 121-125 make of one part. *)
Definition part_audio (part : value) : extraction :=
  inline_audio (VObj [("parts", VArr [part])]).

(** Lines 126-130. *)
Definition enqueue (bytes : list Z) (s : client) : client :=
  let s1 := set_queue (playbackQueue s ++ [bytes]) s in
  if playing s1 then s1 else playLoop (set_playing true s1).

(** The body of the [try]: how it ends, and the state then. *)
Inductive outcome :=
| Returns (s : client)
| Throws (s : client).

Definition handle (msg : value) (s : client) : outcome :=
  match get msg "setupComplete" with
  | None => Throws s
  | Some ready =>
      if truthy ready then Returns (log "Gemini session ready." s)
      else
        match get msg "serverContent" with
        | None => Throws s
        | Some content =>
            if truthy content then
              match get content "interrupted" with
              | None => Throws s
              | Some flag =>
                  let s1 := if truthy flag
                            then log "Model interrupted (barge-in)." (set_queue [] s)
                            else s in
                  match get content "modelTurn" with
                  | None => Throws s1
                  | Some mt =>
                      match inline_audio mt with
                      | Raises => Throws s1
                      | found =>
                          let s2 := match found with
                                    | Audio bytes => enqueue bytes s1
                                    | _ => s1
                                    end in
                          match get content "outputTranscription" with
                          | None => Throws s2
                          | Some ot =>
                              if truthy ot then
                                match get ot "text" with
                                | None => Throws s2
                                | Some text =>
                                    if truthy text then
                                      match ToString text with
                                      | None => Throws s2
                                      | Some line =>
                                          Returns (log ("Model (text): " ++ line) s2)
                                      end
                                    else Returns s2
                                end
                              else Returns s2
                          end
                      end
                  end
              end
            else Returns s
        end
  end.

(** [ws.onmessage]: [data] is what [JSON.parse(ev.data)] gives, [None]
    when it throws. *)
Definition onmessage (data : option value) (s : client) : client :=
  match data with
  | None => warn s
  | Some msg =>
      match handle msg s with
      | Returns s' => s'
      | Throws s' => warn s'
      end
  end.

(** *** [start], lines 80-175, and the click handler of line 219 *)

(** Up to the [await] of [getUserMedia]. *)
Definition click_start (s : client) : client :=
  match ws s with
  | Some _ => s
  | None =>
      let s1 := set_status "connecting…" s in
      let s2 := set_ws (Some (socketsOpened s1)) (note_created 1 0 0 s1) in
      set_starts (starts s2 ++ [AwaitUserMedia]) s2
  end.

(** The promise of [start()] rejects: the [catch] of line 219. *)
Definition start_failed (k : nat) (message : string) (s : client) : client :=
  log ("Start failed: " ++ message) (set_starts (put k None (starts s)) s).

(** [getUserMedia] resolves: [setupAudioWorklet] up to the [await] of
    [addModule]. *)
Definition on_media (k : nat) (s : client) : client :=
  match nth_error (starts s) k with
  | Some AwaitUserMedia =>
      let s1 := set_audioCtx (Some (contextsOpened s)) (note_created 0 1 0 s) in
      set_starts (put k (Some (AwaitModule (contextsOpened s))) (starts s1)) s1
  | _ => s
  end.

Definition on_media_denied (k : nat) (message : string) (s : client) : client :=
  match nth_error (starts s) k with
  | Some AwaitUserMedia => start_failed k message s
  | _ => s
  end.

(** Whether the [open] event of socket [id] has been dispatched.  A
    socket the page holds in [ws] has not had its [close] event (whose
    handler clears [ws]), so it is open if so and connecting if not. *)
Definition is_open (id : nat) (s : client) : bool :=
  existsb (Nat.eqb id) (socketsReady s).

(** Whether the worklet module has registered ['mic-worklet'] in the
    audio context [ctx]. *)
Definition has_module (ctx : nat) (s : client) : bool :=
  existsb (Nat.eqb ctx) (contextsLoaded s).

(** [addModule] resolves, for the context the call was made on: the rest
    of [setupAudioWorklet] and of [start].  The constructor of line 24
    takes the context that [audioCtx] holds by now: it throws a TypeError
    on null, and an InvalidStateError on a context without the module
    (one that a later [start] has created).  The worklet node exists and
    its port has its handler (line 150) when the greeting is sent; [send]
    throws on a socket that is still connecting, and then lines 173-174
    are not reached. *)
Definition on_module (k : nat) (s : client) : client :=
  match nth_error (starts s) k with
  | Some (AwaitModule own) =>
      let s0 := note_loaded own s in
      match audioCtx s0 with
      | None => start_failed k (typeErrorMessage pf) s0
      | Some ctx =>
          if has_module ctx s0 then
            let s1 := set_workletNode (Some (nodesCreated s0)) (note_created 0 0 1 s0) in
            match ws s1 with
            | Some id =>
                if is_open id s1 then
                  let s2 := note_sent (id, Greeting) s1 in
                  set_buttons true false (set_starts (put k None (starts s2)) s2)
                else start_failed k (invalidStateMessage pf) s1
            | None =>
                set_buttons true false (set_starts (put k None (starts s1)) s1)
            end
          else start_failed k (unknownProcessorMessage pf) s0
      end
  | _ => s
  end.

Definition on_module_failed (k : nat) (message : string) (s : client) : client :=
  match nth_error (starts s) k with
  | Some (AwaitModule _) => start_failed k message s
  | _ => s
  end.

(** *** The socket's other handlers, lines 87-97 *)

(** The [open] event of socket [id] can be dispatched: the page has
    created the socket and has not closed it, and the event has not been
    dispatched before. *)
Definition can_open (id : nat) (s : client) : bool :=
  ((id <? socketsOpened s)%nat
   && negb (is_open id s)
   && negb (existsb (Nat.eqb id) (socketsClosed s)))%bool.

(** [ws.onopen], on the socket [id]; an event that cannot be dispatched
    does nothing. *)
Definition onopen (id : nat) (s : client) : client :=
  if can_open id s
  then log "Connected to local server." (set_status "connected" (note_ready id s))
  else s.

Definition onerror (message : string) (s : client) : client :=
  log ("WS error: " ++ message) s.

Definition onclose (s : client) : client :=
  set_ws None (log "Socket closed." (set_status "closed" s)).

(** *** The page as an event-driven system *)

Inductive event :=
| ClickStart
| ClickStop
| MediaGranted (k : nat)
| MediaDenied (k : nat) (message : string)
| ModuleLoaded (k : nat)
| ModuleFailed (k : nat) (message : string)
| WsOpen (id : nat)
| WsError (message : string)
| WsClose
| WsMessage (data : option value)
| Timer (k : nat)
| Ended (k : nat).

Definition step (s : client) (ev : event) : client :=
  match ev with
  | ClickStart => click_start s
  | ClickStop => stop s
  | MediaGranted k => on_media k s
  | MediaDenied k m => on_media_denied k m s
  | ModuleLoaded k => on_module k s
  | ModuleFailed k m => on_module_failed k m s
  | WsOpen id => onopen id s
  | WsError m => onerror m s
  | WsClose => onclose s
  | WsMessage data => onmessage data s
  | Timer k => on_timer k s
  | Ended k => on_ended k s
  end.

Definition run (s : client) (trace : list event) : client :=
  fold_left step trace s.

(** *** Reading an envelope *)

(** A server-content envelope: no truthy [setupComplete], a truthy
    [serverContent]. *)
Definition server_content (msg : value) : option value :=
  match get msg "setupComplete", get msg "serverContent" with
  | Some ready, Some content =>
      if (negb (truthy ready) && truthy content)%bool then Some content else None
  | _, _ => None
  end.

(** Whether it has the interruption flag set. *)
Definition interrupted (msg : value) : bool :=
  match server_content msg with
  | Some content =>
      match get content "interrupted" with
      | Some flag => truthy flag
      | None => false
      end
  | None => false
  end.

(** The chunks it brings to the playback queue. *)
Definition envelope_audio (msg : value) : list (list Z) :=
  match server_content msg with
  | Some content =>
      match get content "modelTurn" with
      | Some mt =>
          match inline_audio mt with
          | Audio bytes => [bytes]
          | _ => []
          end
      | None => []
      end
  | None => []
  end.

Definition arrival (ev : event) : list (list Z) :=
  match ev with
  | WsMessage (Some msg) => envelope_audio msg
  | _ => []
  end.

Definition interrupts (ev : event) : bool :=
  match ev with
  | WsMessage (Some msg) => interrupted msg
  | _ => false
  end.

Definition is_stop (ev : event) : bool :=
  match ev with
  | ClickStop => true
  | _ => false
  end.

End Handlers.

(** What the playback scheduler works on. *)
Definition view (s : client) :=
  (playbackQueue s, playing s, loops s, played s, audioCtx s, ws s).

(** The handler's work on the queue, for an envelope that has the
    interruption flag or not and brings [frames]. *)
Definition accept (flush : bool) (frames : list (list Z)) (s : client) : client :=
  fold_left (fun s bytes => enqueue bytes s) frames
    (if flush then set_queue [] s else s).


(** The buffers on the output device: started, not yet ended. *)
Definition on_device (s : client) : list (list float) :=
  flat_map (fun w => match w with WaitEnded buf => [buf] | WaitTimer => [] end)
    (loops s).

(** The standard's [atob] and ToString, and the messages of Chrome's
    exceptions. *)
Definition browser : platform :=
  {| atob := Base64.atob;
     show := to_string;
     typeErrorMessage :=
       "Failed to construct 'AudioWorkletNode': parameter 1 is not of type 'BaseAudioContext'.";
     unknownProcessorMessage :=
       "Failed to construct 'AudioWorkletNode': AudioWorkletNode cannot be created: The node name 'mic-worklet' is not defined in AudioWorkletGlobalScope.";
     invalidStateMessage :=
       "Failed to execute 'send' on 'WebSocket': Still in CONNECTING state." |}.

(** Envelopes of the wire format. *)
Definition audio_part (b64 : string) : value :=
  VObj [("inlineData", VObj [("data", VStr b64)])].

Definition server_envelope (flag : bool) (parts : list value) : value :=
  VObj [("serverContent",
         VObj [("interrupted", VBool flag);
               ("modelTurn", VObj [("parts", VArr parts)])])].

(** *** Predicates, states and envelopes for the statements below *)

(** The events that are neither a message, a wake-up of the drain loop
    nor a click on Stop leave the scheduler alone, and never take the
    audio context away. *)
Definition bystander (ev : event) : bool :=
  match ev with
  | ClickStop | WsMessage _ | Timer _ | Ended _ => false
  | _ => true
  end.



(** The event wakes none of the first [n] suspended calls. *)
Definition spares (n : nat) (ev : event) : bool :=
  match ev with
  | Timer k | Ended k => (n <=? k)%nat
  | _ => true
  end.






(** The page once [start] has run to its end on an open socket. *)
Definition ready : client :=
  run browser (initial "idle" false true)
    [ClickStart; WsOpen 0; MediaGranted 0; ModuleLoaded 0].

(** Two samples each. *)
Definition chunk_a : value := server_envelope false [audio_part "AQID/w=="].

Definition chunk_b : value := server_envelope false [audio_part "BAUGBw=="].

Definition chunk_c : value := server_envelope false [audio_part "CAkKCw=="].

Definition barge_in_with_audio : value :=
  server_envelope true [audio_part "DA0ODw=="].

Definition barge_in : value := server_envelope true [].

(** One chunk on the device and two in the queue. *)
Definition speaking : client :=
  run browser ready
    [WsMessage (Some chunk_a); WsMessage (Some chunk_b); WsMessage (Some chunk_c)].

(** Three chunks arrive while the first plays; each end of a buffer lets
    the loop take the next. *)
Definition three_chunks : list event :=
  [WsMessage (Some chunk_a); WsMessage (Some chunk_b); WsMessage (Some chunk_c);
   Ended 0; Ended 0].






(** An envelope whose model turn has three parts, each with audio of
    its own. *)
Definition three_parts : value :=
  server_envelope false
    [audio_part "AQID/w=="; audio_part "DA0ODw=="; audio_part "EBESEw=="].

(** A second session has been started while the drain loop of the first
    still waits on its timer. *)
Definition restarted : client :=
  run browser (initial "idle" false true)
    [ClickStart; WsOpen 0; MediaGranted 0; ModuleLoaded 0;
     WsMessage (Some chunk_a); Ended 0;
     ClickStop; WsClose;
     ClickStart; WsOpen 1; MediaGranted 0; ModuleLoaded 0].

(** Two chunks arrive in the second session, then that timer fires. *)
Definition two_chunks_and_timer : list event :=
  [WsMessage (Some chunk_b); WsMessage (Some chunk_c); Timer 0].

(** A session, a click on Stop while the drain loop waits on its timer, a
    second session whose first audio starts a second loop, and then the
    first loop's timer. *)
Definition restart_race : list event :=
  [ClickStart; WsOpen 0; MediaGranted 0; ModuleLoaded 0;
   WsMessage (Some chunk_a); Ended 0;
   ClickStop; WsClose;
   ClickStart; WsOpen 1; MediaGranted 0; ModuleLoaded 0;
   WsMessage (Some chunk_b); WsMessage (Some chunk_c);
   Timer 0].

End Client.

(** ** The relay: the handlers of one connection, [Server/index.js] 34-111 *)

Module Relay.
Import Js.
Local Open Scope string_scope.

(** What is written on a socket: the text of [JSON.stringify] of a value,
    the realtime-audio envelope around raw bytes (lines 79-87), or data
    passed on as received. *)
Inductive payload :=
| Json (v : value)
| AudioEnvelope (raw : string)
| Forwarded (data : string).

(** What a handler does to the outside, in order.  A [send] on the
    upstream socket throws while that socket is still connecting: the one
    of line 72 inside a [try] whose [catch] writes a warning, the ones of
    lines 63 and 87 outside any. *)
Inductive effect :=
| ConsoleLog (text : string)
| ConsoleWarn (text : string)
| ConsoleError (text : string)
| UpstreamConnect
| UpstreamSend (p : payload)
| UpstreamSendOrWarn (p : payload) (text : string)
| UpstreamClose
| ClientSend (p : payload)
| ClientClose.

Inductive event :=
| Connection
| UpstreamOpen
| ClientMessage (data : string) (parsed : option value) (isBinary : bool)
| ClientClosed
| UpstreamMessage (data : string)
| UpstreamClosed (code : Z) (reason : string)
| UpstreamError (message : string).

Definition MODEL : string :=
  "models/gemini-2.5-flash-preview-native-audio-dialog".

(** Lines 43-62. *)
Definition setup : value :=
  VObj [("setup",
    VObj [("model", VStr MODEL);
          ("generationConfig",
             VObj [("responseModalities", VArr [VStr "AUDIO"])]);
          ("systemInstruction",
             VObj [("role", VStr "system");
                   ("parts", VArr [VObj [("text", VStr
"You are a friendly, concise voice assistant. Speak in short, natural sentences. If the user interrupts, immediately stop and listen. Use an upbeat, professional tone.")]])]);
          ("realtimeInputConfig",
             VObj [("automaticActivityDetection", VObj [])]);
          ("outputAudioTranscription", VObj [])])].

(** Line 109: the object given to [JSON.stringify]. *)
Definition error_envelope (message : string) : value :=
  VObj [("error", VStr "Gemini connection error"); ("detail", VStr message)].

(** The handlers.  [parsed] is [JSON.parse(data.toString())], [None] when
    it throws.  The handlers keep no state of their own. *)
Definition handler (ev : event) : list effect :=
  match ev with
  | Connection => [ConsoleLog "Client connected"; UpstreamConnect]
  | UpstreamOpen =>
      [ConsoleLog "Connected to Gemini Live API"; UpstreamSend (Json setup)]
  | ClientMessage data parsed isBinary =>
      if isBinary then [UpstreamSend (AudioEnvelope data)]
      else match parsed with
           | Some msg => [UpstreamSendOrWarn (Json msg) "Invalid JSON from client:"]
           | None => [ConsoleWarn "Invalid JSON from client:"]
           end
  | ClientClosed => [ConsoleLog "Client disconnected"; UpstreamClose]
  | UpstreamMessage data => [ClientSend (Forwarded data)]
  | UpstreamClosed _ _ => [ConsoleLog "Gemini socket closed:"; ClientClose]
  | UpstreamError message =>
      [ConsoleError ("Gemini socket error: " ++ message);
       ClientSend (Json (error_envelope message))]
  end.

(** The upstream socket of a session: not created yet, connecting (from
    [new WebSocket] to its [open] event), open, or closing or closed. *)
Inductive socket_state :=
| Absent
| Connecting
| Open
| Closed.

(** The two sockets of a session, as the library and the handlers'
    effects move them, with what has been written on each, the warnings
    written on the console and the exceptions no handler caught. *)
Record session := {
  clientOpen : bool;
  upstream : socket_state;
  upstreamConnections : nat;
  toClient : list payload;
  toUpstream : list payload;
  warnings : nat;
  uncaught : nat
}.

Definition upstreamOpen (s : session) : bool :=
  match upstream s with
  | Open => true
  | _ => false
  end.

Definition set_client (b : bool) (s : session) : session :=
  {| clientOpen := b; upstream := upstream s;
     upstreamConnections := upstreamConnections s;
     toClient := toClient s; toUpstream := toUpstream s;
     warnings := warnings s; uncaught := uncaught s |}.

Definition set_upstream (u : socket_state) (s : session) : session :=
  {| clientOpen := clientOpen s; upstream := u;
     upstreamConnections := upstreamConnections s;
     toClient := toClient s; toUpstream := toUpstream s;
     warnings := warnings s; uncaught := uncaught s |}.

Definition write_client (p : payload) (s : session) : session :=
  {| clientOpen := clientOpen s; upstream := upstream s;
     upstreamConnections := upstreamConnections s;
     toClient := toClient s ++ [p]; toUpstream := toUpstream s;
     warnings := warnings s; uncaught := uncaught s |}.

Definition write_upstream (p : payload) (s : session) : session :=
  {| clientOpen := clientOpen s; upstream := upstream s;
     upstreamConnections := upstreamConnections s;
     toClient := toClient s; toUpstream := toUpstream s ++ [p];
     warnings := warnings s; uncaught := uncaught s |}.

Definition warn (s : session) : session :=
  {| clientOpen := clientOpen s; upstream := upstream s;
     upstreamConnections := upstreamConnections s;
     toClient := toClient s; toUpstream := toUpstream s;
     warnings := S (warnings s); uncaught := uncaught s |}.

Definition throw (s : session) : session :=
  {| clientOpen := clientOpen s; upstream := upstream s;
     upstreamConnections := upstreamConnections s;
     toClient := toClient s; toUpstream := toUpstream s;
     warnings := warnings s; uncaught := S (uncaught s) |}.

Definition connect (s : session) : session :=
  {| clientOpen := clientOpen s; upstream := Connecting;
     upstreamConnections := S (upstreamConnections s);
     toClient := toClient s; toUpstream := toUpstream s;
     warnings := warnings s; uncaught := uncaught s |}.

(** An effect, as the [ws] library carries it out: [send] throws on a
    socket that is connecting, writes on one that is open, and drops the
    message on one that is closing or closed; [close] throws on none.
    Each [send] that can throw is the last effect of its handler. *)
Definition apply (s : session) (e : effect) : session :=
  match e with
  | ConsoleLog _ | ConsoleError _ => s
  | ConsoleWarn _ => warn s
  | UpstreamConnect => connect s
  | UpstreamSend p =>
      match upstream s with
      | Connecting => throw s
      | Open => write_upstream p s
      | _ => s
      end
  | UpstreamSendOrWarn p _ =>
      match upstream s with
      | Connecting => warn s
      | Open => write_upstream p s
      | _ => s
      end
  | UpstreamClose =>
      match upstream s with
      | Absent => s
      | _ => set_upstream Closed s
      end
  | ClientSend p => if clientOpen s then write_client p s else s
  | ClientClose => set_client false s
  end.

(** What the library has done to a socket when it emits an event: the
    upstream socket is open at its [open] event and no longer open at
    its [error] and [close] events (an error puts it in the closing
    state, and the [close] event follows); the client's socket is closed
    at its [close] event. *)
Definition arrive (s : session) (ev : event) : session :=
  match ev with
  | UpstreamOpen =>
      match upstream s with
      | Connecting => set_upstream Open s
      | _ => s
      end
  | UpstreamError _ | UpstreamClosed _ _ =>
      match upstream s with
      | Absent => s
      | _ => set_upstream Closed s
      end
  | ClientClosed => set_client false s
  | _ => s
  end.

Definition deliver (s : session) (ev : event) : session :=
  fold_left apply (handler ev) (arrive s ev).

(** A client has just connected. *)
Definition accepted : session :=
  {| clientOpen := true; upstream := Absent; upstreamConnections := 0;
     toClient := []; toUpstream := []; warnings := 0; uncaught := 0 |}.

End Relay.

(** ** The capture path on the main thread: [workletNode.port.onmessage] *)

Module Capture.
Import Js Client.
Local Open Scope string_scope.

(** The character of a base64 digit. *)
Definition digit_char (d : N) : ascii :=
  ascii_of_N (if (d <? 26)%N then d + 65
              else if (d <? 52)%N then d + 71
              else if (d <? 62)%N then d - 4
              else if (d =? 62)%N then 43 else 47)%N.

(** The digits of a sequence of bytes: three bytes make four digits, and
    one or two bytes left over make two or three, filled with zero bits. *)
Fixpoint sextets (bytes : list N) : list N :=
  match bytes with
  | a :: b :: c :: rest =>
      let n := (a * 65536 + b * 256 + c)%N in
      (n / 262144 :: (n / 4096) mod 64 :: (n / 64) mod 64 :: n mod 64
         :: sextets rest)%N
  | [a; b] =>
      let n := (a * 1024 + b * 4)%N in
      [n / 4096; (n / 64) mod 64; n mod 64]%N
  | [a] => [a / 4; (a mod 4) * 16]%N
  | [] => []
  end.

Definition padding (bytes : list N) : list ascii :=
  match Nat.modulo (List.length bytes) 3 with
  | 0%nat => []
  | 1%nat => ["="%char; "="%char]
  | _ => ["="%char]
  end.

(** A digit whose character [atob] reads back as that digit, and takes
    neither for white space nor for padding. *)
Definition plain (d : N) : bool :=
  (match Base64.digit (digit_char d) with
   | Some d' => (d' =? d)%N
   | None => false
   end
   && negb (Base64.is_space (digit_char d))
   && negb (Base64.is_pad (digit_char d)))%bool.

(** [btoa(s)], for a string of characters below 256 (it throws on others,
    which a string of this model cannot hold). *)
Definition btoa (s : string) : string :=
  let bytes := map N_of_ascii (list_ascii_of_string s) in
  string_of_list_ascii (map digit_char (sextets bytes) ++ padding bytes).

(** [String.fromCharCode(...new Uint8Array(buf))]. *)
Definition fromCharCode (buf : list Z) : string :=
  string_of_list_ascii (map (fun b => ascii_of_N (Z.to_N b)) buf).

(** Line 153. *)
Definition payload (buf : list Z) : string := btoa (fromCharCode buf).

(** Lines 154-161: the object given to [JSON.stringify]. *)
Definition realtime_envelope (buf : list Z) : value :=
  VObj [("realtimeInput",
         VObj [("audio",
                VObj [("data", VStr (payload buf));
                      ("mimeType", VStr "audio/pcm;rate=16000")])])].

(** Lines 150-163: what the handler gives to [ws?.send] for a buffer
    posted by the worklet, and on which socket; nothing when [ws] is
    null.  ([send] throws while that socket is still connecting.) *)
Definition port_onmessage (buf : list Z) (s : client) : option (nat * value) :=
  match ws s with
  | Some id => Some (id, realtime_envelope buf)
  | None => None
  end.

(** A byte. *)
Definition is_byte (b : Z) : Prop := 0 <= b < 256.

End Capture.

(** ** Sequences of events at the relay, and of samples at the worklet *)

Module Sessions.
Import Js.
Local Open Scope string_scope.

Definition relay_run (s : Relay.session) (trace : list Relay.event) : Relay.session :=
  fold_left Relay.deliver trace s.

(** What an event makes the relay write to the client, and to the
    upstream socket. *)
Definition to_client (ev : Relay.event) : list Relay.payload :=
  match ev with
  | Relay.UpstreamMessage data => [Relay.Forwarded data]
  | Relay.UpstreamError message => [Relay.Json (Relay.error_envelope message)]
  | _ => []
  end.

Definition to_upstream (ev : Relay.event) : list Relay.payload :=
  match ev with
  | Relay.UpstreamOpen => [Relay.Json Relay.setup]
  | Relay.ClientMessage data parsed isBinary =>
      if isBinary then [Relay.AudioEnvelope data]
      else match parsed with
           | Some msg => [Relay.Json msg]
           | None => []
           end
  | _ => []
  end.

(** The events that are traffic: messages in either direction. *)
Definition is_traffic (ev : Relay.event) : bool :=
  match ev with
  | Relay.ClientMessage _ _ _ | Relay.UpstreamMessage _ => true
  | _ => false
  end.

Definition is_connection (ev : Relay.event) : bool :=
  match ev with
  | Relay.Connection => true
  | _ => false
  end.

(** One call of [process] whose input 0 has the one channel [stream]. *)
Definition feed (w : MicWorklet.worklet) (stream : list float)
  : option (MicWorklet.worklet * list (list Z)) :=
  MicWorklet.process w [[stream]].

(** The page's sockets and audio contexts are in order: the current one
    of each, if any, was created and has not been closed by the page, and
    nothing was closed twice. *)
Definition tidy (s : Client.client) : Prop :=
  (forall id, Client.ws s = Some id ->
     (id < Client.socketsOpened s)%nat /\ ~ In id (Client.socketsClosed s))
  /\ (forall id, Client.audioCtx s = Some id ->
        (id < Client.contextsOpened s)%nat /\ ~ In id (Client.contextsClosed s))
  /\ NoDup (Client.socketsClosed s)
  /\ NoDup (Client.contextsClosed s)
  /\ Forall (fun id => (id < Client.socketsOpened s)%nat) (Client.socketsClosed s)
  /\ Forall (fun id => (id < Client.contextsOpened s)%nat) (Client.contextsClosed s).

(** Everything of the page but the scheduler's part, the log and the
    count of warnings. *)
Definition outside (s : Client.client) :=
  (Client.ws s, Client.audioCtx s, Client.workletNode s, Client.starts s,
   Client.statusText s, Client.startDisabled s, Client.stopDisabled s,
   (Client.socketsOpened s, Client.socketsClosed s, Client.socketsReady s,
    Client.contextsOpened s, Client.contextsClosed s, Client.contextsLoaded s,
    Client.nodesCreated s, Client.sent s)).

(** The log and the count of warnings with it. *)
Definition aside (s : Client.client) :=
  (outside s, Client.logText s, Client.warnings s).

(** A chunk of three bytes: not a whole number of samples. *)
Definition odd_chunk : value :=
  Client.server_envelope false [Client.audio_part "AAAA"].

(** The page when such a chunk was the first to arrive: the drain loop
    has ended on it, with the flag up. *)
Definition deaf : Client.client :=
  Client.run Client.browser Client.ready [Client.WsMessage (Some odd_chunk)].


(** The buttons and the capture chain: Start is disabled, and Stop
    enabled, only while a worklet node exists, and then an audio context
    exists too. *)
Definition gated (s : Client.client) : Prop :=
  (Client.startDisabled s = true -> Client.workletNode s <> None)
  /\ Client.stopDisabled s = negb (Client.startDisabled s)
  /\ (Client.workletNode s <> None -> Client.audioCtx s <> None).


(** The page when the worklet module is loaded before the socket has
    opened. *)
Definition hasty : Client.client :=
  Client.run Client.browser (Client.initial "idle" false true)
    [Client.ClickStart; Client.MediaGranted 0].

(** The page when the server has closed the socket while the worklet
    module was loading, and a second click on Start has got as far as
    the module as well: [audioCtx] holds the context of the second
    start. *)
Definition overtaken : Client.client :=
  Client.run Client.browser (Client.initial "idle" false true)
    [Client.ClickStart; Client.WsOpen 0; Client.MediaGranted 0; Client.WsClose;
     Client.ClickStart; Client.MediaGranted 1].

(** A page that is loaded with both buttons enabled, right after the
    first click on Start. *)
Definition clicked : Client.client :=
  Client.run Client.browser (Client.initial "idle" false false) [Client.ClickStart].

(** The same page while the worklet module loads. *)
Definition loading : Client.client :=
  Client.run Client.browser clicked [Client.WsOpen 0; Client.MediaGranted 0].

(** The samples the drain loop may hand to the device: from -1 up to,
    not including, 1. *)
Definition in_unit (x : float) : bool :=
  ((-1 <=? x)%float && (x <? 1)%float)%bool.

(** [f] holds of each of the [2 ^ n] integers from [lo] on. *)
Fixpoint holds_from (n : nat) (lo : Z) (f : Z -> bool) : bool :=
  match n with
  | O => f lo
  | S n' => holds_from n' lo f && holds_from n' (lo + 2 ^ Z.of_nat n') f
  end.

(** A setup acknowledgement that carries audio and an interruption too. *)
Definition loaded_acknowledgement : value :=
  VObj [("setupComplete", VObj []);
        ("serverContent",
         VObj [("interrupted", VBool true);
               ("modelTurn",
                VObj [("parts", VArr [Client.audio_part "AQID/w=="])])])].

End Sessions.

(** * Properties *)

(** ** Comparisons of JavaScript numbers *)

Module JsNumFacts.
Import JsNum.

Lemma SFcompare_antisym a b :
  SFcompare b a = option_map CompOpp (SFcompare a b).
Proof.
  destruct a as [sa|sa| |sa ma ea], b as [sb|sb| |sb mb eb]; cbn;
    try reflexivity; try (destruct sa; reflexivity);
    try (destruct sb; reflexivity); try (destruct sa, sb; reflexivity).
  f_equal.
  rewrite (Z.compare_antisym ea eb).
  change (PosDef.Pos.compare_cont Eq mb ma) with (Pos.compare mb ma).
  change (PosDef.Pos.compare_cont Eq ma mb) with (Pos.compare ma mb).
  rewrite (Pos.compare_antisym ma mb).
  destruct sa, sb, (ea ?= eb); cbn; try reflexivity;
    destruct (ma ?= mb)%positive; reflexivity.
Qed.

Lemma SFcompare_refl a : a <> S754_nan -> SFcompare a a = Some Eq.
Proof.
  destruct a as [sa|sa| |sa ma ea]; cbn; intros H; try congruence.
  - now destruct sa.
  - rewrite Z.compare_refl.
    change (PosDef.Pos.compare_cont Eq ma ma) with (Pos.compare ma ma).
    rewrite Pos.compare_refl. now destruct sa.
Qed.

Lemma SFcompare_defined a b :
  a <> S754_nan -> b <> S754_nan -> exists c, SFcompare a b = Some c.
Proof.
  destruct a, b; cbn; intros Ha Hb; try congruence; eauto.
Qed.

Lemma not_nan_spec x : is_nan x = false -> Prim2SF x <> S754_nan.
Proof.
  unfold is_nan. rewrite FloatAxioms.eqb_spec. unfold SFeqb. intros H E.
  rewrite E in H. discriminate.
Qed.

Lemma leb_refl x : is_nan x = false -> (x <=? x)%float = true.
Proof.
  intros H. rewrite FloatAxioms.leb_spec. unfold SFleb.
  now rewrite SFcompare_refl by now apply not_nan_spec.
Qed.

Lemma ltb_leb x y : (x <? y)%float = true -> (x <=? y)%float = true.
Proof.
  rewrite FloatAxioms.ltb_spec, FloatAxioms.leb_spec. unfold SFltb, SFleb.
  now destruct (SFcompare (Prim2SF x) (Prim2SF y)) as [[]|].
Qed.

Lemma not_ltb_leb x y :
  is_nan x = false -> is_nan y = false ->
  (x <? y)%float = false -> (y <=? x)%float = true.
Proof.
  intros Hx Hy. rewrite FloatAxioms.ltb_spec, FloatAxioms.leb_spec. unfold SFltb, SFleb.
  rewrite (SFcompare_antisym (Prim2SF x) (Prim2SF y)).
  destruct (SFcompare_defined _ _ (not_nan_spec _ Hx) (not_nan_spec _ Hy)) as [c ->].
  now destruct c.
Qed.

(** [Math.min] of two numbers is one of them and below both. *)
Lemma Math_min_spec x y :
  is_nan x = false -> is_nan y = false ->
  is_nan (Math_min x y) = false
  /\ (Math_min x y <=? x)%float = true
  /\ (Math_min x y <=? y)%float = true.
Proof.
  intros Hx Hy. unfold Math_min. rewrite Hx, Hy. cbn [orb].
  destruct (x <? y)%float eqn:Hxy.
  - auto using leb_refl, ltb_leb.
  - destruct (y <? x)%float eqn:Hyx.
    + auto using leb_refl, ltb_leb.
    + destruct (classify x); auto using leb_refl, not_ltb_leb.
Qed.

(** [Math.max] of two numbers is one of them and above both. *)
Lemma Math_max_spec x y :
  is_nan x = false -> is_nan y = false ->
  (Math_max x y = x \/ Math_max x y = y)
  /\ (x <=? Math_max x y)%float = true
  /\ (y <=? Math_max x y)%float = true.
Proof.
  intros Hx Hy. unfold Math_max. rewrite Hx, Hy. cbn [orb].
  destruct (x <? y)%float eqn:Hxy.
  - auto using leb_refl, ltb_leb.
  - destruct (y <? x)%float eqn:Hyx.
    + auto using leb_refl, ltb_leb.
    + destruct (classify x); auto 6 using leb_refl, not_ltb_leb.
Qed.

End JsNumFacts.

(** ** The resampling encoder *)

Module MicWorkletFacts.
Import JsNum MicWorklet.

(** *** 16-bit samples and their two bytes *)

Lemma wrap16_range z : -32768 <= wrap16 z <= 32767.
Proof.
  unfold wrap16.
  pose proof (Z.mod_pos_bound z 65536 ltac:(lia)).
  destruct (Z.leb_spec 32768 (z mod 65536)); lia.
Qed.

Lemma wrap16_congruent z : wrap16 z mod 65536 = z mod 65536.
Proof.
  unfold wrap16.
  pose proof (Z.mod_pos_bound z 65536 ltac:(lia)).
  destruct (Z.leb_spec 32768 (z mod 65536)).
  - symmetry. apply Z.mod_unique with (q := -1); lia.
  - apply Z.mod_mod. lia.
Qed.

Lemma wrap16_mod z : wrap16 (wrap16 z mod 65536) = wrap16 z.
Proof.
  rewrite wrap16_congruent. unfold wrap16.
  now rewrite Z.mod_mod by lia.
Qed.

Lemma ToInt16_range x : -32768 <= ToInt16 x <= 32767.
Proof. apply wrap16_range. Qed.

Lemma getInt16_setInt16 x lo hi :
  setInt16_le x = [lo; hi] -> getInt16_le lo hi = ToInt16 x.
Proof.
  unfold setInt16_le, getInt16_le. intros E. injection E as <- <-.
  rewrite Z.add_comm, <- Z.div_mod by lia.
  apply wrap16_mod.
Qed.

Lemma setInt16_bytes x :
  Forall (fun b => 0 <= b < 256) (setInt16_le x).
Proof.
  unfold setInt16_le.
  pose proof (Z.mod_pos_bound (ToInt16 x) 65536 ltac:(lia)).
  repeat constructor.
  - apply Z.mod_pos_bound; lia.
  - apply Z.mod_pos_bound; lia.
  - apply Z.div_pos; lia.
  - apply Z.div_lt_upper_bound; lia.
Qed.

Lemma frame_samples_encode chunk tail :
  frame_samples (encode_chunk chunk ++ tail)
  = map ToInt16 chunk ++ frame_samples tail.
Proof.
  induction chunk as [|x chunk IH]; [reflexivity|].
  cbn [encode_chunk flat_map map app].
  change (flat_map setInt16_le chunk) with (encode_chunk chunk).
  destruct (setInt16_le x) as [|lo [|hi [|]]] eqn:E; try discriminate.
  cbn [app frame_samples]. rewrite IH.
  now rewrite (getInt16_setInt16 x lo hi E).
Qed.

Lemma frame_samples_encode_chunk chunk :
  frame_samples (encode_chunk chunk) = map ToInt16 chunk.
Proof.
  rewrite <- (app_nil_r (encode_chunk chunk)), frame_samples_encode.
  apply app_nil_r.
Qed.

Lemma length_encode_chunk chunk :
  List.length (encode_chunk chunk) = (2 * List.length chunk)%nat.
Proof.
  induction chunk as [|x chunk IH]; [reflexivity|].
  cbn [encode_chunk flat_map]. rewrite length_app.
  change (flat_map setInt16_le chunk) with (encode_chunk chunk).
  rewrite IH. cbn. lia.
Qed.

(** *** The chunking loop *)

Lemma emit_chunks_ends fuel : forall n buf,
  0 < n -> (List.length buf < fuel)%nat ->
  exists posted rest,
    emit_chunks fuel n buf = Some (posted, rest) /\ chunked n buf posted rest.
Proof.
  induction fuel as [|fuel IH]; intros n buf Hn Hfuel; [lia|].
  cbn [emit_chunks].
  destruct (Z.ltb_spec (Z.of_nat (List.length buf)) n) as [Hlt|Hge].
  - exists [], buf. split; [reflexivity|].
    repeat split; auto. exists []. auto.
  - set (k := Z.to_nat n).
    assert (Hk : (0 < k <= List.length buf)%nat) by (subst k; lia).
    destruct (IH n (skipn k buf) Hn) as (posted & rest & E & Hall & Hrest & Hsamp & taken & Hsplit & Htaken).
    { rewrite length_skipn. lia. }
    rewrite E. eexists _, rest. split; [reflexivity|].
    assert (Hfirst : List.length (firstn k buf) = k) by (rewrite length_firstn; lia).
    repeat split.
    + constructor; [|exact Hall]. split.
      * rewrite length_encode_chunk, Hfirst. reflexivity.
      * rewrite frame_samples_encode_chunk, length_map. exact Hfirst.
    + exact Hrest.
    + cbn [flat_map]. rewrite frame_samples_encode_chunk, <- app_assoc, Hsamp.
      rewrite <- map_app, firstn_skipn. reflexivity.
    + exists (firstn k buf ++ taken). split.
      * rewrite <- app_assoc, <- Hsplit. symmetry. apply firstn_skipn.
      * rewrite length_app, Hfirst, Htaken. cbn [List.length]. lia.
Qed.

(** With a frame size that is not positive the loop, once entered, does
    not end. *)
Lemma emit_chunks_diverges fuel : forall n buf,
  n <= 0 -> emit_chunks fuel n buf = None.
Proof.
  induction fuel as [|fuel IH]; intros n buf Hn; cbn [emit_chunks];
    destruct (Z.ltb_spec (Z.of_nat (List.length buf)) n); try lia; auto.
  now rewrite IH.
Qed.

(** *** The decimation loop *)

Lemma resample_app ratio : forall ch1 acc ch2,
  resample ratio acc (ch1 ++ ch2)
  = (fst (resample ratio (fst (resample ratio acc ch1)) ch2),
     snd (resample ratio acc ch1)
       ++ snd (resample ratio (fst (resample ratio acc ch1)) ch2)).
Proof.
  induction ch1 as [|x ch1 IH]; intros acc ch2; cbn [app resample fst snd].
  - now destruct (resample ratio acc ch2).
  - destruct (ratio <=? acc + 1)%float.
    + rewrite IH.
      destruct (resample ratio (acc + 1 - ratio)%float ch1) as [a o].
      reflexivity.
    + apply IH.
Qed.

Lemma ratio_48k : _ratio (constructor 48000%float) = 3%float.
Proof. reflexivity. Qed.

Lemma samplesPerChunk_16k w :
  _targetRate w = 16000%float -> samplesPerChunk w = Some 320.
Proof. unfold samplesPerChunk. intros ->. reflexivity. Qed.

(** With ratio 3 the accumulator only takes the values 0, 1 and 2, and
    the sample kept is the one that brings the count to 3. *)
Lemma resample_three : forall ch k,
  (k < 3)%nat ->
  resample 3%float (acc_of k) ch
  = (acc_of ((k + List.length ch) mod 3), map quantize (every_third k ch)).
Proof.
  induction ch as [|x ch IH]; intros k Hk.
  - cbn [resample every_third map List.length]. rewrite Nat.add_0_r.
    now rewrite Nat.mod_small.
  - assert (Hk' : (k = 0 \/ k = 1 \/ k = 2)%nat) by lia.
    assert (Hlen : forall j, ((j + List.length (x :: ch)) mod 3
                              = (S j + List.length ch) mod 3)%nat).
    { intros j. cbn [List.length]. f_equal. lia. }
    destruct Hk' as [-> | [-> | ->]]; cbn [resample every_third].
    + change (3 <=? acc_of 0 + 1)%float with false.
      change (acc_of 0 + 1)%float with (acc_of 1).
      rewrite IH, Hlen by lia. reflexivity.
    + change (3 <=? acc_of 1 + 1)%float with false.
      change (acc_of 1 + 1)%float with (acc_of 2).
      rewrite IH, Hlen by lia. reflexivity.
    + change (3 <=? acc_of 2 + 1)%float with true.
      change (acc_of 2 + 1 - 3)%float with (acc_of 0).
      rewrite IH by lia. cbn [map].
      replace ((2 + List.length (x :: ch)) mod 3)%nat
        with ((0 + List.length ch) mod 3)%nat; [reflexivity|].
      cbn [List.length].
      replace (2 + S (List.length ch))%nat with (List.length ch + 1 * 3)%nat by lia.
      now rewrite Nat.Div0.mod_add.
Qed.

Lemma length_every_third {A : Type} : forall (l : list A) k,
  (k < 3)%nat ->
  List.length (every_third k l) = ((k + List.length l) / 3)%nat.
Proof.
  induction l as [|x l IH]; intros k Hk.
  - cbn [every_third List.length]. rewrite Nat.add_0_r.
    symmetry. now apply Nat.div_small.
  - assert (Hk' : (k = 0 \/ k = 1 \/ k = 2)%nat) by lia.
    destruct Hk' as [-> | [-> | ->]]; cbn [every_third List.length].
    + rewrite IH by lia. f_equal.
    + rewrite IH by lia. f_equal.
    + rewrite IH by lia.
      replace (2 + S (List.length l))%nat with (0 + List.length l + 1 * 3)%nat by lia.
      rewrite Nat.div_add by lia. lia.
Qed.

Lemma nth_every_third {A : Type} (d : A) : forall (l : list A) k j,
  (k < 3)%nat ->
  nth j (every_third k l) d = nth (3 * j + 2 - k) l d.
Proof.
  induction l as [|x l IH]; intros k j Hk.
  - cbn [every_third]. generalize (3 * j + 2 - k)%nat. intros m.
    now destruct j, m.
  - assert (Hk' : (k = 0 \/ k = 1 \/ k = 2)%nat) by lia.
    destruct Hk' as [-> | [-> | ->]]; cbn [every_third].
    + rewrite IH by lia.
      replace (3 * j + 2 - 0)%nat with (S (3 * j + 2 - 1)) by lia. reflexivity.
    + rewrite IH by lia.
      replace (3 * j + 2 - 1)%nat with (S (3 * j + 2 - 2)) by lia. reflexivity.
    + destruct j as [|j]; [reflexivity|].
      cbn [nth]. rewrite IH by lia.
      replace (3 * S j + 2 - 2)%nat with (S (3 * j + 2 - 0)) by lia. reflexivity.
Qed.

(** *** One call of [process], and a sequence of calls *)

Lemma encoded_idle w : encoded w [] w [].
Proof.
  unfold encoded. cbn [resample fst snd flat_map app List.length].
  rewrite app_nil_r. repeat split; auto. exists []. auto.
Qed.

Lemma process_spec w inputs :
  _targetRate w = 16000%float ->
  exists w' posted,
    process w inputs = Some (w', posted)
    /\ encoded w (consumed inputs) w' posted
    /\ ((List.length (_resampleBuffer w) < 320)%nat ->
        (List.length (_resampleBuffer w') < 320)%nat).
Proof.
  intros Hrate.
  destruct inputs as [|[|ch others] more]; cbn [process consumed];
    try (exists w, []; split; [reflexivity|split; [apply encoded_idle|auto]]).
  destruct (resample (_ratio w) (_acc w) ch) as [acc' pushed] eqn:Eres.
  rewrite (samplesPerChunk_16k _ Hrate).
  destruct (emit_chunks_ends (S (List.length (_resampleBuffer w ++ pushed))) 320
              (_resampleBuffer w ++ pushed) ltac:(lia) ltac:(lia))
    as (posted & rest & E & Hall & Hrest & Hsamp & taken & Hsplit & Htaken).
  rewrite E. eexists _, posted. split; [reflexivity|].
  split; [|intros _; cbn [_resampleBuffer]; lia].
  unfold encoded. rewrite Eres. cbn [_ratio _targetRate _acc _resampleBuffer fst snd].
  repeat split; auto.
  exists taken. split; [exact Hsplit|]. rewrite Htaken.
  change (Z.to_nat 320) with 320%nat. lia.
Qed.

Lemma run_spec : forall calls w,
  _targetRate w = 16000%float ->
  (List.length (_resampleBuffer w) < 320)%nat ->
  exists w' posted,
    run w calls = Some (w', posted)
    /\ encoded w (flat_map consumed calls) w' posted
    /\ (List.length (_resampleBuffer w') < 320)%nat.
Proof.
  induction calls as [|inputs calls IH]; intros w Hrate Hbuf.
  - exists w, []. split; [reflexivity|]. split; [apply encoded_idle|exact Hbuf].
  - cbn [run flat_map].
    destruct (process_spec w inputs Hrate)
      as (w1 & p1 & E1 & (Hr1 & Ht1 & Ha1 & Hall1 & Hs1 & t1 & Hsplit1 & Hlen1) & Hb1).
    rewrite E1.
    destruct (IH w1) as (w2 & p2 & E2 & (Hr2 & Ht2 & Ha2 & Hall2 & Hs2 & t2 & Hsplit2 & Hlen2) & Hb2);
      [congruence|auto|].
    rewrite E2. exists w2, (p1 ++ p2). split; [reflexivity|]. split; [|exact Hb2].
    unfold encoded. rewrite resample_app. cbn [fst snd].
    rewrite Hr1, Ha1 in *.
    repeat split; try congruence.
    + apply Forall_app. auto.
    + rewrite flat_map_app, <- app_assoc, Hs2, map_app, app_assoc, Hs1.
      rewrite <- map_app, <- app_assoc. reflexivity.
    + exists (t1 ++ t2). split.
      * rewrite app_assoc, Hsplit1, <- !app_assoc, Hsplit2. reflexivity.
      * rewrite !length_app. lia.
Qed.

Lemma run_from_constructor sampleRate calls :
  exists w' posted,
    run (constructor sampleRate) calls = Some (w', posted)
    /\ encoded (constructor sampleRate) (flat_map consumed calls) w' posted
    /\ (List.length (_resampleBuffer w') < 320)%nat.
Proof. apply run_spec; [reflexivity|cbn; lia]. Qed.

(** *** Clamping *)

Lemma clamp_range x :
  is_nan x = false ->
  ((-1) <=? clamp x)%float = true /\ (clamp x <=? 1)%float = true.
Proof.
  intros Hx. unfold clamp.
  destruct (JsNumFacts.Math_min_spec 1%float x eq_refl Hx) as (Hnan & Hle & _).
  destruct (JsNumFacts.Math_max_spec (-1)%float (Math_min 1 x) eq_refl Hnan)
    as ([E|E] & Hlow & _).
  - split; [exact Hlow|]. rewrite E. reflexivity.
  - split; [exact Hlow|]. rewrite E. exact Hle.
Qed.

Lemma clamp_nan x : is_nan x = true -> clamp x = nan.
Proof.
  intros Hx. unfold clamp, Math_min. rewrite Hx, orb_true_r. reflexivity.
Qed.

(** *** The claims on the encoder *)

(** C1.  At 48 kHz the ratio is 3 and, over any sequence of [process]
    calls from a new worklet, the calls end, and the samples emitted (those
    posted, then those still buffered) are the quantized input samples
    number 3, 6, 9, ... of the stream consumed: sample [j] of the output
    is input sample [3 j + 2] (from 0), so it exists only once
    [3 (j + 1)] inputs have been consumed, there are [floor (n / 3)] of
    them for [n] inputs, and the accumulator carries [n mod 3] to the next
    call. *)
Theorem decimation_48k_one_in_three :
  forall calls : list (list (list (list float))),
  let stream := flat_map consumed calls in
  let kept := every_third 0 stream in
  _ratio (constructor 48000%float) = 3%float
  /\ exists w' posted,
       run (constructor 48000%float) calls = Some (w', posted)
       /\ flat_map frame_samples posted ++ map ToInt16 (_resampleBuffer w')
          = map (fun x => ToInt16 (quantize x)) kept
       /\ (List.length (flat_map frame_samples posted)
           + List.length (_resampleBuffer w')
           = List.length stream / 3)%nat
       /\ List.length kept = (List.length stream / 3)%nat
       /\ (forall j d, nth j kept d = nth (3 * j + 2) stream d)
       /\ _acc w' = acc_of (List.length stream mod 3).
Proof.
  intros calls stream kept. split; [reflexivity|].
  destruct (run_from_constructor 48000%float calls)
    as (w' & posted & E & (_ & _ & Hacc & _ & Hsamp & _) & _).
  fold stream in Hacc, Hsamp.
  change (_ratio (constructor 48000)) with 3%float in Hacc, Hsamp.
  change (_acc (constructor 48000)) with (acc_of 0) in Hacc, Hsamp.
  rewrite resample_three in Hacc, Hsamp by lia.
  cbn [fst snd _resampleBuffer constructor app] in Hacc, Hsamp.
  rewrite map_map in Hsamp. fold kept in Hsamp.
  assert (Hlen : List.length kept = (List.length stream / 3)%nat).
  { unfold kept. now rewrite length_every_third by lia. }
  exists w', posted. repeat split; auto.
  - apply (f_equal (@List.length Z)) in Hsamp.
    rewrite length_app, !length_map in Hsamp. congruence.
  - intros j d. unfold kept. rewrite nth_every_third by lia.
    f_equal. lia.
Qed.

(** C2.  Quantization clamps to [-1, 1] and scales by 32768 below zero and
    by 32767 from zero on: every sample that is a number is clamped into
    [-1, 1], anything beyond the range taking the bound; -1.0 is written
    as -32768, the least 16-bit value, and 1.0 as 32767, the greatest,
    neither wrapping; 0.5 is written as 16383 and read back by the
    playback decoding as 16383 / 32768, at distance 1 / 32768 from 0.5. *)
Theorem quantization_full_scale :
  (forall x, is_nan x = false ->
     ((-1) <=? clamp x)%float = true /\ (clamp x <=? 1)%float = true)
  /\ (forall x, quantize x
                = if (clamp x <? 0)%float then (clamp x * 32768)%float
                  else (clamp x * 32767)%float)
  /\ (clamp 2.5 = 1 /\ clamp (-7) = -1
      /\ clamp infinity = 1 /\ clamp neg_infinity = -1)%float
  /\ (quantize (-1) = (-32768) /\ quantize 1 = 32767
      /\ quantize (-0.5) = (-16384) /\ quantize 0.5 = 16383.5)%float
  /\ (truncZ (quantize (-1)) = -32768 /\ ToInt16 (quantize (-1)) = -32768
      /\ setInt16_le (quantize (-1)) = [0; 128])
  /\ (truncZ (quantize 1) = 32767 /\ ToInt16 (quantize 1) = 32767
      /\ setInt16_le (quantize 1) = [255; 127])
  /\ (forall x, -32768 <= ToInt16 (quantize x) <= 32767)
  /\ (ToInt16 (quantize 0.5) = 16383
      /\ Client.pcm16_to_f32 (encode_chunk [quantize 0.5])
         = [(16383 / 32768)%float]
      /\ (abs (16383 / 32768 - 0.5) <=? 1 / 32768)%float = true
      /\ (abs (quantize 0.5 / 32768 - 0.5) <=? 1 / 32768)%float = true).
Proof.
  split; [exact clamp_range|].
  split; [reflexivity|].
  repeat split; try reflexivity; apply ToInt16_range.
Qed.

(** C6.  Whatever the capture rate and the calls, every buffer the
    encoder posts holds exactly 320 samples (640 bytes); what is left
    in [_resampleBuffer] after a call is shorter than 320 samples and
    stays for the next call; and nothing is dropped or padded: the
    samples posted, in order, followed by the buffered ones are exactly
    the samples the decimation loop produced, a whole number of times 320
    of them having been posted. *)
Theorem frames_hold_320_samples :
  forall (sampleRate : float) (calls : list (list (list (list float)))),
  let produced :=
    snd (resample (sampleRate / 16000)%float 0%float (flat_map consumed calls)) in
  samplesPerChunk (constructor sampleRate) = Some 320
  /\ exists w' posted,
       run (constructor sampleRate) calls = Some (w', posted)
       /\ Forall (fun frame => List.length frame = 640%nat
                               /\ List.length (frame_samples frame) = 320%nat) posted
       /\ (List.length (_resampleBuffer w') < 320)%nat
       /\ flat_map frame_samples posted ++ map ToInt16 (_resampleBuffer w')
          = map ToInt16 produced
       /\ exists taken,
            produced = taken ++ _resampleBuffer w'
            /\ List.length taken = (320 * List.length posted)%nat.
Proof.
  intros sampleRate calls produced. split; [reflexivity|].
  destruct (run_from_constructor sampleRate calls)
    as (w' & posted & E & (_ & _ & _ & Hall & Hsamp & Htaken) & Hbuf).
  exists w', posted. auto.
Qed.

End MicWorkletFacts.

(** ** The playback scheduler *)

Module ClientFacts.
Import JsNum Js Client.
Local Open Scope string_scope.

Section Scheduler.
Variable pf : platform.

(** *** Logging does not reach the scheduler *)

Lemma view_log m s : view (log m s) = view s.
Proof. reflexivity. Qed.

Lemma view_warn s : view (warn s) = view s.
Proof. reflexivity. Qed.

Lemma view_eq s t :
  view s = view t ->
  playbackQueue s = playbackQueue t /\ playing s = playing t
  /\ loops s = loops t /\ played s = played t
  /\ audioCtx s = audioCtx t /\ ws s = ws t.
Proof. unfold view. intros E. inversion E. auto 10. Qed.

Lemma view_fields s q p l pl a w :
  view s = (q, p, l, pl, a, w) ->
  playbackQueue s = q /\ playing s = p /\ loops s = l /\ played s = pl
  /\ audioCtx s = a /\ ws s = w.
Proof. unfold view. intros E. inversion E. auto 10. Qed.

Lemma drain_view s t :
  view s = view t ->
  view (fst (drain s)) = view (fst (drain t)) /\ snd (drain s) = snd (drain t).
Proof.
  intros E. pose proof (view_eq s t E) as (Hq & Hp & Hl & Hpl & Ha & Hw).
  unfold drain. rewrite Hq, Hp, Ha.
  destruct (playing t); [|auto].
  destruct (playbackQueue t) as [|bytes rest]; [auto|].
  destruct (audioCtx t); [destruct (decodable bytes)|];
    unfold view in E |- *; cbn; inversion E; split; congruence.
Qed.


Lemma playLoop_view s t : view s = view t -> view (playLoop s) = view (playLoop t).
Proof.
  intros E. unfold playLoop.
  assert (Ea : audioCtx s = audioCtx t) by (unfold view in E; congruence).
  rewrite Ea. destruct (audioCtx t); [|exact E].
  destruct (drain_view s t E) as [E1 E2].
  destruct (drain s) as [s1 w1], (drain t) as [t1 w2]. cbn [fst snd] in *. subst w2.
  destruct w1; [|exact E1].
  unfold view in *. cbn. congruence.
Qed.

Lemma enqueue_view bytes s t :
  view s = view t -> view (enqueue bytes s) = view (enqueue bytes t).
Proof.
  intros E. unfold enqueue.
  assert (Ep : playing s = playing t) by (unfold view in E; congruence).
  cbn [playing set_queue]. rewrite Ep. destruct (playing t).
  - unfold view in *. cbn. congruence.
  - apply playLoop_view. unfold view in *. cbn. congruence.
Qed.

(** *** The handler, seen from the scheduler *)

(** The handler does to the scheduler what [accept] says, for the flag
    and the audio the envelope carries. *)
Lemma get_truthy v k : truthy v = true -> exists x, get v k = Some x.
Proof. destruct v; cbn; intros H; try discriminate; eauto. Qed.

Lemma onmessage_view data s :
  view (onmessage pf data s)
  = view (accept (interrupts (WsMessage data)) (arrival pf (WsMessage data)) s).
Proof.
  destruct data as [msg|]; [|reflexivity].
  unfold onmessage, handle, interrupts, arrival, interrupted, envelope_audio,
    server_content.
  destruct (get msg "setupComplete") as [ready|]; [|reflexivity].
  destruct (truthy ready); [destruct (get msg "serverContent"); reflexivity|].
  destruct (get msg "serverContent") as [content|]; [|reflexivity].
  cbn [negb andb].
  destruct (truthy content) eqn:Hc; [|reflexivity].
  destruct (get_truthy content "interrupted" Hc) as [flag ->].
  destruct (get_truthy content "modelTurn" Hc) as [mt ->].
  destruct (get_truthy content "outputTranscription" Hc) as [ot ->].
  assert (Hflush : view (if truthy flag
                         then log "Model interrupted (barge-in)." (set_queue [] s)
                         else s)
                   = view (if truthy flag then set_queue [] s else s))
    by (destruct (truthy flag); reflexivity).
  unfold accept.
  destruct (inline_audio pf mt) as [|bytes|], (truthy ot);
    try destruct (get ot "text") as [text|]; try destruct (truthy text);
    try destruct (ToString pf text);
    cbn [fold_left]; rewrite ?view_log, ?view_warn;
    solve [exact Hflush | apply enqueue_view, Hflush].
Qed.


(** The handler touches neither the socket nor the audio context. *)
Lemma onmessage_rest data s :
  ws (onmessage pf data s) = ws s
  /\ audioCtx (onmessage pf data s) = audioCtx s.
Proof.
  pose proof (view_eq _ _ (onmessage_view data s)) as (_ & _ & _ & _ & Ha & Hw).
  rewrite Ha, Hw. unfold accept.
  generalize (arrival pf (WsMessage data)). intros frames.
  assert (H0 : ws (if interrupts (WsMessage data) then set_queue [] s else s) = ws s
               /\ audioCtx (if interrupts (WsMessage data) then set_queue [] s else s)
                  = audioCtx s)
    by (destruct (interrupts _); auto).
  revert H0. generalize (if interrupts (WsMessage data) then set_queue [] s else s).
  induction frames as [|b frames IH]; intros t Ht; cbn [fold_left]; [exact Ht|].
  apply IH. destruct Ht as [<- <-].
  unfold enqueue, playLoop, drain.
  cbn [playing set_queue set_playing audioCtx playbackQueue].
  destruct (playing t); [auto|].
  destruct (audioCtx t) eqn:Ha'; [|auto].
  destruct (playbackQueue t ++ [b])%list; [cbn; auto|].
  destruct (decodable _); cbn; auto.
Qed.

(** An envelope brings at most one chunk. *)
Lemma envelope_audio_cases msg :
  envelope_audio pf msg = [] \/ exists bytes, envelope_audio pf msg = [bytes].
Proof.
  unfold envelope_audio.
  destruct (server_content msg); auto.
  destruct (get _ "modelTurn"); auto.
  destruct (inline_audio pf _); eauto.
Qed.

(** What [enqueue] does, case by case. *)
Lemma enqueue_playing bytes s :
  playing s = true ->
  view (enqueue bytes s)
  = ((playbackQueue s ++ [bytes])%list, true, loops s, played s, audioCtx s, ws s).
Proof. intros H. unfold enqueue, view. cbn [playing set_queue]. rewrite H. cbn. now rewrite H. Qed.

Lemma enqueue_no_context bytes s :
  playing s = false -> audioCtx s = None ->
  view (enqueue bytes s)
  = ((playbackQueue s ++ [bytes])%list, true, loops s, played s, None, ws s).
Proof.
  intros H Ha. unfold enqueue, playLoop, view. cbn [playing set_queue set_playing audioCtx].
  rewrite H, Ha. cbn. now rewrite Ha.
Qed.

Lemma enqueue_starts_loop bytes s c :
  playing s = false -> audioCtx s = Some c ->
  let first := hd bytes (playbackQueue s ++ [bytes]) in
  view (enqueue bytes s)
  = if decodable first
    then (tl (playbackQueue s ++ [bytes]), true,
          (loops s ++ [WaitEnded (pcm16_to_f32 first)])%list,
          (played s ++ [pcm16_to_f32 first])%list, Some c, ws s)
    else (tl (playbackQueue s ++ [bytes]), true, loops s, played s, Some c, ws s).
Proof.
  intros H Ha first. subst first. unfold enqueue, playLoop, drain, view.
  cbn [playing set_queue set_playing audioCtx playbackQueue].
  rewrite H, Ha.
  destruct (playbackQueue s ++ [bytes])%list as [|h rest] eqn:E.
  { now destruct (playbackQueue s). }
  cbn [hd tl]. destruct (decodable h); cbn; now rewrite Ha.
Qed.

Lemma interrupted_view msg s :
  interrupted msg = true ->
  view (onmessage pf (Some msg) s)
  = view (accept true (envelope_audio pf msg) s).
Proof.
  intros H. rewrite onmessage_view. cbn [interrupts arrival]. now rewrite H.
Qed.

End Scheduler.

(** *** Interruption *)

(** C3, as the code has it.  An envelope with the interruption flag set
    leaves none of the chunks that were queued: afterwards the queue is
    empty, or holds just the chunk this same envelope brings; when the
    envelope brings no audio the queue is empty and nothing else of the
    scheduler moves.  No queued chunk is played on the way: the device's
    record grows by nothing, or by this envelope's own chunk.  The calls of
    the drain loop that wait for their buffer to end, and the buffers on the
    device, stay as they are. *)
Theorem interruption_discards_queued_frames :
  forall (pf : platform) (s : client) (msg : value),
  interrupted msg = true ->
  let s' := onmessage pf (Some msg) s in
  (playbackQueue s' = [] \/ playbackQueue s' = envelope_audio pf msg)
  /\ (envelope_audio pf msg = [] ->
      playbackQueue s' = [] /\ played s' = played s /\ loops s' = loops s
      /\ playing s' = playing s)
  /\ (played s' = played s
      \/ exists bytes, envelope_audio pf msg = [bytes]
           /\ played s' = (played s ++ [pcm16_to_f32 bytes])%list)
  /\ (exists started, loops s' = (loops s ++ started)%list)
  /\ (exists more, on_device s' = (on_device s ++ more)%list).
Proof.
  intros pf s msg Hint s'.
  pose proof (view_eq _ _ (interrupted_view pf msg s Hint)) as (Hq & Hp & Hl & Hpl & _).
  fold s' in Hq, Hp, Hl, Hpl.
  assert (Hdev : forall started, loops s' = (loops s ++ started)%list ->
                 exists more, on_device s' = (on_device s ++ more)%list).
  { intros started E. unfold on_device. rewrite E, flat_map_app. eauto. }
  destruct (envelope_audio_cases pf msg) as [E|[bytes E]]; rewrite E in *.
  - cbn in Hq, Hp, Hl, Hpl.
    assert (El : loops s' = (loops s ++ [])%list) by now rewrite app_nil_r.
    repeat split; eauto.
  - unfold accept in Hq, Hp, Hl, Hpl. cbn [fold_left] in Hq, Hp, Hl, Hpl.
    assert (El : loops s' = loops s -> loops s' = (loops s ++ [])%list)
      by (intros ->; now rewrite app_nil_r).
    destruct (playing s) eqn:Hplay.
    + pose proof (view_fields _ _ _ _ _ _ _ (enqueue_playing bytes (set_queue [] s) Hplay))
        as (Hq' & _ & Hl' & Hpl' & _).
      cbn in Hq', Hl', Hpl'. rewrite Hq' in Hq. rewrite Hl' in Hl. rewrite Hpl' in Hpl.
      repeat split; eauto; discriminate.
    + destruct (audioCtx s) as [c|] eqn:Hctx.
      * pose proof (enqueue_starts_loop bytes (set_queue [] s) c Hplay Hctx) as Hv.
        cbn [playbackQueue set_queue app hd tl loops played ws] in Hv.
        destruct (decodable bytes); apply view_fields in Hv;
          destruct Hv as (Hq' & _ & Hl' & Hpl' & _);
          rewrite Hq' in Hq; rewrite Hl' in Hl; rewrite Hpl' in Hpl;
          repeat split; eauto; discriminate.
      * pose proof (view_fields _ _ _ _ _ _ _
                      (enqueue_no_context bytes (set_queue [] s) Hplay Hctx))
          as (Hq' & _ & Hl' & Hpl' & _).
        cbn in Hq', Hl', Hpl'. rewrite Hq' in Hq. rewrite Hl' in Hl. rewrite Hpl' in Hpl.
        repeat split; eauto; discriminate.
Qed.

Lemma interruption_discards_queued_frames_witness :
  interrupted barge_in = true
  /\ List.length (playbackQueue speaking) = 2%nat
  /\ playbackQueue (onmessage browser (Some barge_in) speaking) = []
  /\ on_device (onmessage browser (Some barge_in) speaking) = on_device speaking.
Proof.
  split; [vm_compute; reflexivity|]. split; [vm_compute; reflexivity|].
  destruct (interruption_discards_queued_frames browser speaking barge_in eq_refl)
    as (_ & H & _).
  split; [apply H|]; vm_compute; reflexivity.
Defined.

(** C3 as stated fails: with two chunks queued, an envelope that has the
    flag set and brings audio leaves a queue of length 1, not 0. *)
Lemma interruption_with_audio_leaves_a_frame :
  interrupted barge_in_with_audio = true
  /\ List.length (playbackQueue speaking) = 2%nat
  /\ playbackQueue (onmessage browser (Some barge_in_with_audio) speaking)
     = [[12; 13; 14; 15]]
  /\ List.length (playbackQueue (onmessage browser (Some barge_in_with_audio) speaking))
     <> 0%nat.
Proof. repeat split; try (vm_compute; reflexivity). vm_compute. discriminate. Qed.




(** *** Only the first part of a model turn is read *)

Lemma inline_audio_parts pf mt first others :
  get mt "parts" = Some (VArr (first :: others)) ->
  inline_audio pf mt = part_audio pf first.
Proof.
  intros H. unfold part_audio, inline_audio.
  assert (Hmt : truthy mt = true).
  { destruct mt; cbn in H; try discriminate; reflexivity. }
  rewrite Hmt, H. reflexivity.
Qed.

(** C9.  Of a model turn with two or more parts only [parts[0]] is read.
    What the envelope brings is what lines 121-125 make of the first
    part, whatever the parts after it are; and the state the handler
    leaves is given by the state before and the first part alone.  When
    the first part decodes to a chunk, that chunk is the one appended to
    the queue (cleared first if the envelope interrupts): it waits at the
    tail if the flag was up or there is no audio context, and else the
    drain loop started by the handler has already taken the head of the
    queue.  When the first part has no audio nothing is queued, also if
    later parts have some.  No chunk of a later part is in the queue or
    on the device. *)
Theorem only_first_part_is_queued :
  forall (pf : platform) (s : client) (msg content mt first second : value)
         (others : list value),
  server_content msg = Some content ->
  get content "modelTurn" = Some mt ->
  get mt "parts" = Some (VArr (first :: second :: others)) ->
  let s' := onmessage pf (Some msg) s in
  let kept := if interrupted msg then [] else playbackQueue s in
  envelope_audio pf msg
  = match part_audio pf first with Audio bytes => [bytes] | _ => [] end
  /\ match part_audio pf first with
     | Audio bytes =>
         playing s' = true
         /\ if playing s
            then playbackQueue s' = (kept ++ [bytes])%list
                 /\ played s' = played s /\ loops s' = loops s
            else match audioCtx s with
                 | None =>
                     playbackQueue s' = (kept ++ [bytes])%list
                     /\ played s' = played s /\ loops s' = loops s
                 | Some _ =>
                     let head := hd bytes (kept ++ [bytes]) in
                     playbackQueue s' = tl (kept ++ [bytes])
                     /\ played s'
                        = (played s
                           ++ if decodable head then [pcm16_to_f32 head] else [])%list
                     /\ loops s'
                        = (loops s
                           ++ if decodable head
                              then [WaitEnded (pcm16_to_f32 head)] else [])%list
                 end
     | _ =>
         playbackQueue s' = kept /\ played s' = played s
         /\ loops s' = loops s /\ playing s' = playing s
     end.
Proof.
  intros pf s msg content mt first second others Hcontent Hmt Hparts s' kept.
  assert (Haudio : envelope_audio pf msg
                   = match part_audio pf first with Audio bytes => [bytes] | _ => [] end).
  { unfold envelope_audio. rewrite Hcontent, Hmt.
    now rewrite (inline_audio_parts pf mt first (second :: others) Hparts). }
  split; [exact Haudio|].
  pose proof (onmessage_view pf (Some msg) s) as Hview.
  cbn [interrupts arrival] in Hview. rewrite Haudio in Hview.
  unfold accept in Hview. fold s' in Hview.
  set (s0 := if interrupted msg then set_queue [] s else s) in Hview.
  assert (H0 : playbackQueue s0 = kept /\ playing s0 = playing s
               /\ loops s0 = loops s /\ played s0 = played s
               /\ audioCtx s0 = audioCtx s).
  { subst s0 kept. destruct (interrupted msg); cbn; auto. }
  destruct H0 as (Hq0 & Hp0 & Hl0 & Hd0 & Hc0).
  destruct (part_audio pf first) as [|bytes|]; cbn [fold_left] in Hview.
  - apply view_eq in Hview. destruct Hview as (Hq & Hp & Hl & Hd & _).
    rewrite Hq, Hp, Hl, Hd. auto.
  - destruct (playing s) eqn:Hflag.
    + rewrite (enqueue_playing bytes s0 Hp0) in Hview.
      apply view_fields in Hview. destruct Hview as (Hq & Hp & Hl & Hd & _).
      rewrite Hq, Hp, Hl, Hd, Hq0, Hl0, Hd0. auto.
    + destruct (audioCtx s) as [c|] eqn:Hctx.
      * pose proof (enqueue_starts_loop bytes s0 c Hp0 Hc0) as E.
        cbn zeta in E. rewrite E in Hview. rewrite Hq0 in Hview.
        cbn zeta.
        destruct (decodable (hd bytes (kept ++ [bytes])));
          apply view_fields in Hview; destruct Hview as (Hq & Hp & Hl & Hd & _);
          rewrite Hq, Hp, Hl, Hd, ?Hl0, ?Hd0, ?app_nil_r; auto.
      * rewrite (enqueue_no_context bytes s0 Hp0 Hc0) in Hview.
        apply view_fields in Hview. destruct Hview as (Hq & Hp & Hl & Hd & _).
        rewrite Hq, Hp, Hl, Hd, Hq0, Hl0, Hd0. auto.
  - apply view_eq in Hview. destruct Hview as (Hq & Hp & Hl & Hd & _).
    rewrite Hq, Hp, Hl, Hd. auto.
Qed.

Lemma only_first_part_is_queued_witness :
  server_content three_parts
  = Some (VObj [("interrupted", VBool false);
                ("modelTurn",
                 VObj [("parts",
                        VArr [audio_part "AQID/w=="; audio_part "DA0ODw==";
                              audio_part "EBESEw=="])])])
  /\ part_audio browser (audio_part "AQID/w==") = Audio [1; 2; 3; 255]
  /\ part_audio browser (audio_part "DA0ODw==") = Audio [12; 13; 14; 15]
  /\ part_audio browser (audio_part "EBESEw==") = Audio [16; 17; 18; 19]
  /\ envelope_audio browser three_parts = [[1; 2; 3; 255]]
  /\ playbackQueue speaking = [[4; 5; 6; 7]; [8; 9; 10; 11]]
  /\ playbackQueue (onmessage browser (Some three_parts) speaking)
     = [[4; 5; 6; 7]; [8; 9; 10; 11]; [1; 2; 3; 255]]
  /\ played (onmessage browser (Some three_parts) speaking) = played speaking.
Proof.
  assert (Hcontent : server_content three_parts
            = Some (VObj [("interrupted", VBool false);
                          ("modelTurn",
                           VObj [("parts",
                                  VArr [audio_part "AQID/w=="; audio_part "DA0ODw==";
                                        audio_part "EBESEw=="])])]))
    by reflexivity.
  assert (Hfirst : part_audio browser (audio_part "AQID/w==") = Audio [1; 2; 3; 255])
    by (vm_compute; reflexivity).
  destruct (only_first_part_is_queued browser speaking three_parts _ _
              (audio_part "AQID/w==") (audio_part "DA0ODw==")
              [audio_part "EBESEw=="] Hcontent eq_refl eq_refl)
    as (Haudio & Hstate).
  rewrite Hfirst in Haudio, Hstate.
  assert (Hflag : playing speaking = true) by (vm_compute; reflexivity).
  rewrite Hflag in Hstate. destruct Hstate as (_ & Hq & Hd & _).
  split; [exact Hcontent|]. split; [exact Hfirst|].
  split; [vm_compute; reflexivity|]. split; [vm_compute; reflexivity|].
  split; [exact Haudio|]. split; [vm_compute; reflexivity|].
  split; [rewrite Hq; vm_compute; reflexivity|exact Hd].
Defined.

(** *** Runs of the page *)

Section Runs.
Variable pf : platform.

Lemma run_cons s ev trace : run pf s (ev :: trace) = run pf (step pf s ev) trace.
Proof. reflexivity. Qed.



Lemma bystander_step s ev :
  bystander ev = true ->
  playbackQueue (step pf s ev) = playbackQueue s
  /\ playing (step pf s ev) = playing s
  /\ loops (step pf s ev) = loops s
  /\ played (step pf s ev) = played s
  /\ (audioCtx s <> None -> audioCtx (step pf s ev) <> None).
Proof.
  destruct ev; cbn [bystander]; try discriminate; intros _; cbn [step].
  - unfold click_start. destruct (ws s); cbn; auto.
  - unfold on_media. destruct (nth_error (starts s) k) as [[]|]; cbn; auto 6.
    repeat split; auto. discriminate.
  - unfold on_media_denied. destruct (nth_error (starts s) k) as [[]|]; cbn; auto.
  - unfold on_module, start_failed.
    destruct (nth_error (starts s) k) as [[|own]|]; cbn; auto.
    destruct (audioCtx s) eqn:E; cbn; [|repeat split; auto; congruence].
    match goal with |- context [if ?b then _ else _] => destruct b end; cbn;
      [destruct (ws s) as [id|]; cbn;
         [match goal with |- context [if ?b then _ else _] => destruct b end; cbn|]|];
      rewrite ?E; repeat split; auto; discriminate.
  - unfold on_module_failed. destruct (nth_error (starts s) k) as [[]|]; cbn; auto.
  - unfold onopen. destruct (can_open id s); cbn; auto.
  - cbn; auto.
  - cbn; auto.
Qed.








(** *** Order of playback *)








(** *** Order of playback, whatever calls of the drain loop there are *)











(** *** Calls that stay asleep *)

















End Runs.

(** *** Sessions *)










(** The hypothesis on the calls left over is needed.  On the schedule
    on which the timer of a call left by Stop fires only once the next
    session has received audio, that call goes on and takes a chunk
    while the buffer of the new call plays. *)
Lemma left_over_timer_takes_a_chunk :
  loops restarted = [WaitTimer] /\ playing restarted = false
  /\ playbackQueue restarted = []
  /\ forallb (spares 1) two_chunks_and_timer = false
  /\ on_device (run browser restarted two_chunks_and_timer)
     = [pcm16_to_f32 [8; 9; 10; 11]; pcm16_to_f32 [4; 5; 6; 7]].
Proof. vm_compute. repeat split. Qed.



(** The hypothesis on the calls left over is needed: from the page as
    loaded, on the schedule on which the timer of the call left by Stop
    fires only once the next session has received its first audio, two
    calls drain the one queue. *)
Lemma two_drain_loops_after_restart :
  let s := run browser (initial "idle" false true) restart_race in
  loops s = [WaitEnded (pcm16_to_f32 [8; 9; 10; 11]);
             WaitEnded (pcm16_to_f32 [4; 5; 6; 7])]
  /\ playing s = true
  /\ restart_race
     = ([ClickStart; WsOpen 0; MediaGranted 0; ModuleLoaded 0;
         WsMessage (Some chunk_a); Ended 0; ClickStop; WsClose;
         ClickStart; WsOpen 1; MediaGranted 0; ModuleLoaded 0]
        ++ two_chunks_and_timer)%list
  /\ existsb (fun ev => negb (spares 1 ev)) two_chunks_and_timer = true.
Proof. vm_compute. repeat split. Qed.

(** *** A start that fails *)

(** C5, evaluated on the code.  When [getUserMedia] is refused the
    failure reaches the page: the click handler logs it.  But what
    [start] did before the refusal stays: [ws] still holds the socket it
    opened, which nothing has closed, the status text is the one [start]
    wrote, and a further click on Start returns at [if (ws) return]
    without doing anything. *)
Theorem denied_start_leaves_socket_open :
  forall (pf : platform) (status message : string) (startOff stopOff : bool),
  let page := initial status startOff stopOff in
  let s := run pf page [ClickStart; MediaDenied 0 message] in
  logText s = ["Start failed: " ++ message]
  /\ starts s = []
  /\ ws page = None /\ ws s = Some 0%nat
  /\ socketsOpened s = 1%nat /\ socketsClosed s = []
  /\ statusText s = "connecting…"
  /\ step pf s ClickStart = s
  /\ (startDisabled s = startOff /\ stopDisabled s = stopOff).
Proof. intros. subst page s. vm_compute. repeat split. Qed.

End ClientFacts.

(** ** More on the encoder *)

Module EncoderFacts.
Import JsNum MicWorklet Sessions.

(** *** The chunking loop does not depend on how much fuel is left *)

Lemma emit_chunks_fuel : forall fuel1 fuel2 n buf,
  0 < n -> (List.length buf < fuel1)%nat -> (List.length buf < fuel2)%nat ->
  emit_chunks fuel1 n buf = emit_chunks fuel2 n buf.
Proof.
  induction fuel1 as [|fuel1 IH]; intros fuel2 n buf Hn H1 H2; [lia|].
  destruct fuel2 as [|fuel2]; [lia|]. cbn [emit_chunks].
  destruct (Z.ltb_spec (Z.of_nat (List.length buf)) n); [reflexivity|].
  rewrite (IH fuel2); [reflexivity|exact Hn| |]; rewrite length_skipn; lia.
Qed.

(** Chunking a buffer and then, with more samples, what was left of it,
    is chunking the whole at once. *)
Lemma emit_chunks_app : forall fuel n buf more posted rest,
  0 < n -> (List.length buf < fuel)%nat ->
  emit_chunks fuel n buf = Some (posted, rest) ->
  emit_chunks (S (List.length (buf ++ more))) n (buf ++ more)
  = match emit_chunks (S (List.length (rest ++ more))) n (rest ++ more) with
    | Some (posted', rest') => Some (posted ++ posted', rest')
    | None => None
    end.
Proof.
  induction fuel as [|fuel IH]; intros n buf more posted rest Hn Hfuel H; [lia|].
  cbn [emit_chunks] in H.
  destruct (Z.ltb_spec (Z.of_nat (List.length buf)) n) as [Hlt|Hge].
  - injection H as <- <-. cbn [app].
    now destruct (emit_chunks _ n (buf ++ more)) as [[? ?]|].
  - destruct (emit_chunks fuel n (skipn (Z.to_nat n) buf)) as [[p r]|] eqn:E;
      [|discriminate].
    injection H as <- <-.
    assert (Hk : (0 < Z.to_nat n <= List.length buf)%nat) by lia.
    remember (emit_chunks (S (List.length (r ++ more))) n (r ++ more)) as tail.
    cbn [emit_chunks].
    destruct (Z.ltb_spec (Z.of_nat (List.length (buf ++ more))) n) as [Hlt'|_].
    { rewrite length_app in Hlt'. lia. }
    rewrite firstn_app, skipn_app.
    replace (Z.to_nat n - List.length buf)%nat with 0%nat by lia.
    cbn [firstn skipn]. rewrite app_nil_r.
    rewrite (emit_chunks_fuel _ (S (List.length (skipn (Z.to_nat n) buf ++ more))) n _ Hn).
    + rewrite (IH n _ more p r Hn); [|rewrite length_skipn; lia|exact E].
      rewrite <- Heqtail. now destruct tail as [[? ?]|].
    + rewrite !length_app, length_skipn. lia.
    + lia.
Qed.

Lemma process_is_feed w inputs ch others more :
  inputs = (ch :: others) :: more -> process w inputs = feed w ch.
Proof. intros ->. reflexivity. Qed.

Lemma feed_nothing w :
  _targetRate w = 16000%float ->
  (List.length (_resampleBuffer w) < 320)%nat ->
  feed w [] = Some (w, []).
Proof.
  intros Hrate Hbuf. unfold feed, process. cbn [resample].
  rewrite (MicWorkletFacts.samplesPerChunk_16k _ Hrate), app_nil_r.
  cbn [emit_chunks].
  destruct (Z.ltb_spec (Z.of_nat (List.length (_resampleBuffer w))) 320); [|lia].
  destruct w; reflexivity.
Qed.

Lemma feed_app w stream1 stream2 :
  _targetRate w = 16000%float ->
  feed w (stream1 ++ stream2)
  = match feed w stream1 with
    | Some (w1, posted1) =>
        match feed w1 stream2 with
        | Some (w2, posted2) => Some (w2, posted1 ++ posted2)
        | None => None
        end
    | None => None
    end.
Proof.
  intros Hrate. unfold feed, process.
  rewrite MicWorkletFacts.resample_app.
  destruct (resample (_ratio w) (_acc w) stream1) as [a1 p1]. cbn [fst snd].
  destruct (resample (_ratio w) a1 stream2) as [a2 p2] eqn:E2. cbn [fst snd].
  rewrite !(MicWorkletFacts.samplesPerChunk_16k w Hrate).
  destruct (MicWorkletFacts.emit_chunks_ends
              (S (List.length (_resampleBuffer w ++ p1))) 320
              (_resampleBuffer w ++ p1) ltac:(lia) ltac:(lia))
    as (posted1 & rest1 & E1 & _).
  rewrite E1.
  cbn [_ratio _acc _resampleBuffer].
  rewrite E2.
  rewrite MicWorkletFacts.samplesPerChunk_16k by exact Hrate.
  rewrite app_assoc.
  rewrite (emit_chunks_app _ 320 _ p2 posted1 rest1 ltac:(lia) (Nat.lt_succ_diag_r _) E1).
  now destruct (emit_chunks _ 320 (rest1 ++ p2)) as [[? ?]|].
Qed.

Lemma run_is_feed : forall calls w,
  _targetRate w = 16000%float ->
  (List.length (_resampleBuffer w) < 320)%nat ->
  run w calls = feed w (flat_map consumed calls).
Proof.
  induction calls as [|inputs calls IH]; intros w Hrate Hbuf.
  - cbn [run flat_map]. now rewrite feed_nothing.
  - cbn [run flat_map].
    destruct (MicWorkletFacts.process_spec w inputs Hrate)
      as (w1 & p1 & E1 & (_ & Ht1 & _) & Hb1).
    rewrite feed_app by exact Hrate.
    assert (Hfeed : feed w (consumed inputs) = Some (w1, p1)).
    { destruct inputs as [|[|ch others] more]; cbn [consumed];
        try (cbn [process] in E1; injection E1 as <- <-; now apply feed_nothing).
      now rewrite <- (process_is_feed w _ ch others more eq_refl). }
    rewrite E1, Hfeed.
    rewrite IH; [reflexivity|congruence|auto].
Qed.

(** X1.  The buffers posted and the worklet left behind depend on the
    samples consumed only, not on how they came cut into [process] calls,
    nor on calls that had no input in between: any sequence of calls on a
    new worklet gives what one call with all the samples gives. *)
Theorem calls_matter_only_as_a_stream :
  forall (sampleRate : float) (calls : list (list (list (list float)))),
  run (constructor sampleRate) calls
  = process (constructor sampleRate) [[flat_map consumed calls]].
Proof.
  intros sampleRate calls.
  apply run_is_feed; [reflexivity|cbn; lia].
Qed.

(** *** The clamp, case by case *)

Lemma SFcompare_finite_eq s m e b :
  SFcompare (S754_finite s m e) b = Some Eq -> b = S754_finite s m e.
Proof.
  destruct b as [sb|sb| |sb mb eb]; cbn; try discriminate;
    try (destruct s; discriminate); try (destruct sb; discriminate).
  change (Pos.compare_cont Eq m mb) with (Pos.compare m mb).
  destruct s, sb; try discriminate;
    destruct (Z.compare_spec e eb) as [->|_|_]; try discriminate;
    destruct (Pos.compare_spec m mb) as [->|_|_]; try discriminate;
    reflexivity.
Qed.

Lemma compare_is_nan x y :
  is_nan x = false -> is_nan y = false ->
  exists c, SFcompare (Prim2SF x) (Prim2SF y) = Some c
            /\ SFcompare (Prim2SF y) (Prim2SF x) = Some (CompOpp c).
Proof.
  intros Hx Hy.
  destruct (JsNumFacts.SFcompare_defined (Prim2SF x) (Prim2SF y)
              (JsNumFacts.not_nan_spec x Hx) (JsNumFacts.not_nan_spec y Hy))
    as (c & Hc).
  exists c. split; [exact Hc|].
  now rewrite JsNumFacts.SFcompare_antisym, Hc.
Qed.

Lemma Math_min_one x :
  is_nan x = false ->
  Math_min 1 x = if (1 <=? x)%float then 1%float else x.
Proof.
  intros Hx. unfold Math_min. rewrite Hx.
  change (is_nan 1) with false. cbn [orb].
  destruct (compare_is_nan 1 x eq_refl Hx) as (c & Hc & Hc').
  rewrite !FloatAxioms.ltb_spec, FloatAxioms.leb_spec.
  unfold SFltb, SFleb. rewrite Hc, Hc'.
  destruct c; cbn [CompOpp]; try reflexivity.
  change (Prim2SF 1) with (S754_finite false 4503599627370496 (-52)) in Hc.
  apply SFcompare_finite_eq in Hc.
  change (S754_finite false 4503599627370496 (-52)) with (Prim2SF 1) in Hc.
  rewrite <- (FloatAxioms.SF2Prim_Prim2SF x), Hc.
  reflexivity.
Qed.

Lemma Math_max_minus_one y :
  is_nan y = false ->
  Math_max (-1) y = if (y <=? -1)%float then (-1)%float else y.
Proof.
  intros Hy. unfold Math_max. rewrite Hy.
  change (is_nan (-1)) with false. cbn [orb].
  destruct (compare_is_nan (-1) y eq_refl Hy) as (c & Hc & Hc').
  rewrite !FloatAxioms.ltb_spec, FloatAxioms.leb_spec.
  unfold SFltb, SFleb. rewrite Hc, Hc'.
  destruct c; reflexivity.
Qed.

(** X3.  What lines 55-56 make of a sample: NaN stays NaN; a sample at or
    above 1 (plus infinity too) becomes exactly 32767 and one at or below
    -1 (minus infinity too) exactly -32768; any other sample is scaled as
    it is, by 32768 below zero and by 32767 otherwise, so that the two
    halves of the range have different gains. *)
Theorem quantize_by_cases (sample : float) :
  quantize sample
  = if is_nan sample then nan
    else if (1 <=? sample)%float then 32767%float
    else if (sample <=? -1)%float then (-32768)%float
    else if (sample <? 0)%float then (sample * 32768)%float
    else (sample * 32767)%float.
Proof.
  unfold quantize.
  destruct (is_nan sample) eqn:Hnan.
  - rewrite (MicWorkletFacts.clamp_nan _ Hnan). reflexivity.
  - unfold clamp. rewrite (Math_min_one _ Hnan).
    destruct (1 <=? sample)%float eqn:Hhigh.
    + reflexivity.
    + rewrite (Math_max_minus_one _ Hnan).
      destruct (sample <=? -1)%float; reflexivity.
Qed.

(** *** From the worklet's bytes to the drain loop's numbers *)

Lemma pcm16_to_f32_encode chunk tail :
  Client.pcm16_to_f32 (encode_chunk chunk ++ tail)
  = (map (fun x => (float_of_int16 (ToInt16 x) / 32768)%float) chunk
     ++ Client.pcm16_to_f32 tail)%list.
Proof.
  induction chunk as [|x chunk IH]; [reflexivity|].
  cbn [encode_chunk flat_map map app].
  change (flat_map setInt16_le chunk) with (encode_chunk chunk).
  destruct (setInt16_le x) as [|lo [|hi [|]]] eqn:E; try discriminate.
  cbn [app Client.pcm16_to_f32]. rewrite IH.
  now rewrite (MicWorkletFacts.getInt16_setInt16 x lo hi E).
Qed.

(** X2.  The byte order and the sample width of the two ends agree: what
    the worklet writes with [setInt16(_, _, true)] (line 69), the drain
    loop's [getInt16(_, true)] (line 205) reads back sample for sample, as
    the 16-bit value written over 32768, none lost or split; and a chunk
    so written is one the loop body gets through as soon as it holds a
    sample. *)
Theorem written_samples_are_read_back (chunk : list float) :
  Client.pcm16_to_f32 (encode_chunk chunk)
  = map (fun x => (float_of_int16 (ToInt16 x) / 32768)%float) chunk
  /\ Client.decodable (encode_chunk chunk)
     = match chunk with [] => false | _ => true end.
Proof.
  split.
  - rewrite <- (app_nil_r (encode_chunk chunk)), pcm16_to_f32_encode.
    apply app_nil_r.
  - unfold Client.decodable.
    rewrite MicWorkletFacts.length_encode_chunk.
    replace (2 * List.length chunk)%nat with (0 + 2 * List.length chunk)%nat by lia.
    rewrite Nat.even_add_mul_2.
    destruct chunk; reflexivity.
Qed.

End EncoderFacts.

(** ** More on the page *)

Module PageFacts.
Import Js Client Sessions.
Local Open Scope string_scope.

Section Inside.
Variable pf : platform.

(** *** The scheduler works on its own fields only *)

Lemma outside_log m s : outside (log m s) = outside s.
Proof. reflexivity. Qed.

Lemma aside_drain s : aside (fst (drain s)) = aside s.
Proof.
  unfold drain.
  destruct (playing s); [|reflexivity].
  destruct (playbackQueue s); [reflexivity|].
  destruct (audioCtx s); [|reflexivity].
  destruct (decodable l); reflexivity.
Qed.

Lemma aside_playLoop s : aside (playLoop s) = aside s.
Proof.
  unfold playLoop. destruct (audioCtx s); [|reflexivity].
  pose proof (aside_drain s) as H.
  destruct (drain s) as [s1 [w|]]; cbn [fst] in H; rewrite <- H; reflexivity.
Qed.

Lemma aside_enqueue bytes s : aside (enqueue bytes s) = aside s.
Proof.
  unfold enqueue. cbn [playing set_queue].
  destruct (playing s); [reflexivity|].
  rewrite aside_playLoop. reflexivity.
Qed.

Lemma aside_wake k s :
  aside (set_loops (put k (snd (drain s)) (loops (fst (drain s)))) (fst (drain s)))
  = aside s.
Proof. rewrite <- (aside_drain s). reflexivity. Qed.

Lemma aside_fields s t :
  aside s = aside t ->
  outside s = outside t /\ logText s = logText t /\ warnings s = warnings t.
Proof.
  intros E. split; [exact (f_equal (fun x => fst (fst x)) E)|].
  split; [exact (f_equal (fun x => snd (fst x)) E)|exact (f_equal snd E)].
Qed.

(** The body of the handler: the log gets up to two lines, and nothing
    else beside the scheduler changes. *)
Lemma handle_aside msg s :
  exists s' added,
    (handle pf msg s = Returns s' \/ handle pf msg s = Throws s')
    /\ outside s' = outside s
    /\ logText s' = (logText s ++ added)%list
    /\ (List.length added <= 2)%nat
    /\ warnings s' = warnings s.
Proof.
  assert (Hkeep : forall t, (handle pf msg s = Returns t \/ handle pf msg s = Throws t) ->
            forall added, outside t = outside s ->
            logText t = (logText s ++ added)%list ->
            (List.length added <= 2)%nat -> warnings t = warnings s ->
            exists s' added,
              (handle pf msg s = Returns s' \/ handle pf msg s = Throws s')
              /\ outside s' = outside s
              /\ logText s' = (logText s ++ added)%list
              /\ (List.length added <= 2)%nat
              /\ warnings s' = warnings s).
  { intros t Ht added H1 H2 H3 H4. exists t, added. auto. }
  unfold handle in *.
  destruct (get msg "setupComplete") as [ready|];
    [|apply (Hkeep s (or_intror eq_refl) []); cbn; auto using app_nil_r].
  destruct (truthy ready);
    [apply (Hkeep _ (or_introl eq_refl) ["Gemini session ready."]); cbn; auto|].
  destruct (get msg "serverContent") as [content|];
    [|apply (Hkeep s (or_intror eq_refl) []); cbn; auto using app_nil_r].
  destruct (truthy content);
    [|apply (Hkeep s (or_introl eq_refl) []); cbn; auto using app_nil_r].
  destruct (get content "interrupted") as [flag|];
    [|apply (Hkeep s (or_intror eq_refl) []); cbn; auto using app_nil_r].
  set (s1 := if truthy flag then log "Model interrupted (barge-in)." (set_queue [] s)
             else s) in *.
  assert (H1 : exists a1, outside s1 = outside s
                          /\ logText s1 = (logText s ++ a1)%list
                          /\ (List.length a1 <= 1)%nat /\ warnings s1 = warnings s).
  { subst s1. destruct (truthy flag).
    - exists ["Model interrupted (barge-in)."]. cbn. auto.
    - exists []. rewrite app_nil_r. cbn. auto. }
  destruct H1 as (a1 & Ho1 & Hl1 & Hn1 & Hw1).
  destruct (get content "modelTurn") as [mt|];
    [|apply (Hkeep s1 (or_intror eq_refl) a1); auto; lia].
  set (s2 := match inline_audio pf mt with
             | Audio bytes => enqueue bytes s1
             | _ => s1
             end).
  assert (H2 : aside s2 = aside s1).
  { subst s2. destruct (inline_audio pf mt); auto using aside_enqueue. }
  apply aside_fields in H2. destruct H2 as (Ho2 & Hl2 & Hw2).
  destruct (inline_audio pf mt) eqn:Eaudio;
    try (apply (Hkeep s1 (or_intror eq_refl) a1); auto; lia);
    fold s2;
    (destruct (get content "outputTranscription") as [ot|];
       [|apply (Hkeep s2 (or_intror eq_refl) a1); congruence || lia]);
    (destruct (truthy ot);
       [|apply (Hkeep s2 (or_introl eq_refl) a1); congruence || lia]);
    (destruct (get ot "text") as [text|];
       [|apply (Hkeep s2 (or_intror eq_refl) a1); congruence || lia]);
    (destruct (truthy text);
       [|apply (Hkeep s2 (or_introl eq_refl) a1); congruence || lia]);
    (destruct (ToString pf text) as [line|];
       [|apply (Hkeep s2 (or_intror eq_refl) a1); congruence || lia]);
    apply (Hkeep _ (or_introl eq_refl) (a1 ++ [("Model (text): " ++ line)%string])%list);
    subst s2; rewrite ?outside_log; cbn [logText warnings log];
    try congruence;
    try (rewrite ?Hl2; rewrite Hl1, <- app_assoc; reflexivity);
    try (rewrite length_app; cbn; lia).
Qed.

Lemma onmessage_aside data s :
  outside (onmessage pf data s) = outside s
  /\ (exists added, logText (onmessage pf data s) = (logText s ++ added)%list
                    /\ (List.length added <= 2)%nat)
  /\ (warnings s <= warnings (onmessage pf data s) <= S (warnings s))%nat.
Proof.
  destruct data as [msg|]; cbn [onmessage].
  - destruct (handle_aside msg s) as (s' & added & [E|E] & Ho & Hl & Hn & Hw);
      rewrite E; cbn [outside logText warnings warn ws audioCtx workletNode
                      starts statusText startDisabled stopDisabled socketsOpened
                      socketsClosed contextsOpened contextsClosed nodesCreated sent];
      (split; [exact Ho|split; [exists added; auto|lia]]).
  - split; [reflexivity|]. split; [exists []; rewrite app_nil_r; cbn; auto|cbn; lia].
Qed.

(** *** A drain loop that has ended with the flag up *)

Lemma stalled_step s ev :
  is_stop ev = false -> playing s = true -> loops s = [] ->
  playing (step pf s ev) = true /\ loops (step pf s ev) = []
  /\ played (step pf s ev) = played s
  /\ playbackQueue (step pf s ev)
     = ((if interrupts ev then [] else playbackQueue s) ++ arrival pf ev)%list.
Proof.
  intros Hstop Hflag Hloops.
  destruct (bystander ev) eqn:Hby.
  - destruct (ClientFacts.bystander_step pf s ev Hby) as (Hq & Hp & Hl & Hd & _).
    rewrite Hq, Hp, Hl, Hd.
    destruct ev; try discriminate; cbn [interrupts arrival];
      rewrite app_nil_r; auto.
  - destruct ev; try discriminate; cbn [step].
    + pose proof (ClientFacts.onmessage_view pf data s) as Hview.
      remember (interrupts (WsMessage data)) as flush.
      set (s0 := if flush then set_queue [] s else s).
      assert (H0 : playing s0 = true /\ loops s0 = [] /\ played s0 = played s
                   /\ playbackQueue s0 = if flush then [] else playbackQueue s).
      { subst s0. destruct flush; cbn; auto. }
      destruct H0 as (Hp0 & Hl0 & Hd0 & Hq0).
      assert (Hframes : arrival pf (WsMessage data) = []
                        \/ exists bytes, arrival pf (WsMessage data) = [bytes]).
      { destruct data as [msg|]; cbn [arrival]; [|auto].
        apply ClientFacts.envelope_audio_cases. }
      unfold accept in Hview. fold s0 in Hview.
      destruct Hframes as [E|(bytes & E)]; rewrite E in Hview |- *;
        cbn [fold_left] in Hview.
      * apply ClientFacts.view_eq in Hview.
        destruct Hview as (Hq & Hp & Hl & Hd & _).
        rewrite Hq, Hp, Hl, Hd, app_nil_r. auto.
      * rewrite (ClientFacts.enqueue_playing bytes s0 Hp0) in Hview.
        apply ClientFacts.view_fields in Hview.
        destruct Hview as (Hq & Hp & Hl & Hd & _).
        rewrite Hq, Hp, Hl, Hd, Hq0. auto.
    + unfold on_timer. rewrite Hloops.
      destruct k; cbn [nth_error interrupts arrival]; rewrite app_nil_r; auto.
    + unfold on_ended. rewrite Hloops.
      destruct k; cbn [nth_error interrupts arrival]; rewrite app_nil_r; auto.
Qed.

Lemma stalled_run : forall trace s,
  Forall (fun ev => is_stop ev = false) trace ->
  playing s = true -> loops s = [] ->
  playing (run pf s trace) = true /\ loops (run pf s trace) = []
  /\ played (run pf s trace) = played s
  /\ (Forall (fun ev => interrupts ev = false) trace ->
      playbackQueue (run pf s trace)
      = (playbackQueue s ++ flat_map (arrival pf) trace)%list).
Proof.
  induction trace as [|ev trace IH]; intros s Hstop Hflag Hloops.
  - cbn. rewrite app_nil_r. auto.
  - rewrite ClientFacts.run_cons.
    destruct (stalled_step s ev (Forall_inv Hstop) Hflag Hloops)
      as (Hp & Hl & Hd & Hq).
    destruct (IH (step pf s ev) (Forall_inv_tail Hstop) Hp Hl)
      as (Hp' & Hl' & Hd' & Hq').
    rewrite Hp', Hl', Hd', Hd. repeat split; auto.
    intros Hflush. rewrite (Hq' (Forall_inv_tail Hflush)), Hq.
    rewrite (Forall_inv Hflush). cbn [flat_map]. now rewrite app_assoc.
Qed.

End Inside.

(** X8.  Whatever the server sends, text that does not parse as well, the
    message handler works on the playback scheduler, the log and the
    console only: the socket, the audio context, the worklet node, a
    start in progress, the status line, the buttons and what has been
    opened, closed or sent stay as they are; the log gets at most two
    lines and the console at most one warning.  A message that is valid
    JSON but no object does nothing at all, but for [null], which only
    counts a warning; and an acknowledgement of the setup is only logged,
    whatever else the same message carries. *)
Theorem server_message_stays_inside :
  forall (pf : platform) (data : option value) (s : client),
  let s' := onmessage pf data s in
  outside s' = outside s
  /\ (exists added, logText s' = (logText s ++ added)%list
                    /\ (List.length added <= 2)%nat)
  /\ (warnings s <= warnings s' <= S (warnings s))%nat
  /\ match data with
     | Some (VObj _) => True
     | Some VNull | Some VUndefined | None => s' = warn s
     | Some _ => s' = s
     end
  /\ (forall others : list (string * value),
        onmessage pf (Some (VObj (("setupComplete", VBool true) :: others))) s
        = log "Gemini session ready." s).
Proof.
  intros pf data s s'. subst s'.
  destruct (onmessage_aside pf data s) as (Ho & Hl & Hw).
  repeat split; try assumption; try lia.
  destruct data as [[]|]; reflexivity || exact I.
Qed.

(** X4.  Once no call of the drain loop is left while the [playing] flag
    is still up (the loop has ended on a chunk it could not decode, on a
    closed socket, or was started before there was an audio context),
    nothing starts another: through any events but a click on Stop no
    buffer reaches the output device, no loop appears and the flag stays
    up, while the chunks that arrive pile up in the queue. *)
Theorem playback_stalls_until_stop :
  forall (pf : platform) (s : client) (trace : list event),
  playing s = true -> loops s = [] ->
  Forall (fun ev => is_stop ev = false) trace ->
  let s' := run pf s trace in
  played s' = played s /\ on_device s' = [] /\ loops s' = []
  /\ playing s' = true
  /\ (Forall (fun ev => interrupts ev = false) trace ->
      playbackQueue s' = (playbackQueue s ++ flat_map (arrival pf) trace)%list).
Proof.
  intros pf s trace Hflag Hloops Hstop s'. subst s'.
  destruct (stalled_run pf trace s Hstop Hflag Hloops) as (Hp & Hl & Hd & Hq).
  unfold on_device. rewrite Hl. auto.
Qed.

Lemma playback_stalls_until_stop_witness :
  playing deaf = true /\ loops deaf = []
  /\ played (run browser deaf [WsMessage (Some chunk_a); WsMessage (Some chunk_b);
                                Timer 0; Ended 0])
     = played deaf
  /\ playbackQueue (run browser deaf [WsMessage (Some chunk_a);
                                       WsMessage (Some chunk_b); Timer 0; Ended 0])
     = [[1; 2; 3; 255]; [4; 5; 6; 7]].
Proof.
  assert (Hflag : playing deaf = true) by (vm_compute; reflexivity).
  assert (Hloops : loops deaf = []) by (vm_compute; reflexivity).
  assert (Hstop : Forall (fun ev => is_stop ev = false)
                    [WsMessage (Some chunk_a); WsMessage (Some chunk_b);
                     Timer 0; Ended 0])
    by (repeat constructor).
  assert (Hflush : Forall (fun ev => interrupts ev = false)
                     [WsMessage (Some chunk_a); WsMessage (Some chunk_b);
                      Timer 0; Ended 0])
    by (repeat constructor).
  destruct (playback_stalls_until_stop browser deaf _ Hflag Hloops Hstop)
    as (Hd & _ & _ & _ & Hq).
  split; [exact Hflag|]. split; [exact Hloops|]. split; [exact Hd|].
  rewrite (Hq Hflush). vm_compute. reflexivity.
Defined.



(** *** Stop *)

Lemma stop_fields s :
  ws (stop s) = None /\ workletNode (stop s) = None /\ audioCtx (stop s) = None
  /\ playbackQueue (stop s) = [] /\ playing (stop s) = false
  /\ startDisabled (stop s) = false /\ stopDisabled (stop s) = true
  /\ statusText (stop s) = "idle"
  /\ logText (stop s) = (logText s ++ ["Stopped."])%list
  /\ socketsClosed (stop s)
     = (socketsClosed s ++ match ws s with Some id => [id] | None => [] end)%list
  /\ contextsClosed (stop s)
     = (contextsClosed s ++ match audioCtx s with Some id => [id] | None => [] end)%list
  /\ socketsOpened (stop s) = socketsOpened s
  /\ contextsOpened (stop s) = contextsOpened s
  /\ nodesCreated (stop s) = nodesCreated s
  /\ sent (stop s) = sent s /\ starts (stop s) = starts s
  /\ loops (stop s) = loops s /\ played (stop s) = played s
  /\ warnings (stop s) = warnings s.
Proof.
  unfold stop.
  destruct (ws s) eqn:E1, (workletNode s) eqn:E2, (audioCtx s) eqn:E3;
    cbn; rewrite ?E1, ?E2, ?E3; cbn; rewrite ?E1, ?E2, ?E3; cbn;
    rewrite ?app_nil_r; repeat split; reflexivity || assumption.
Qed.

Lemma nth_error_put {A : Type} (k : nat) (x y : A) (l : list A) :
  nth_error l k = Some x -> nth_error (put k (Some y) l) k = Some y.
Proof.
  intros H. unfold put.
  assert (Hk : (k < List.length l)%nat) by (apply nth_error_Some; congruence).
  rewrite nth_error_app2; rewrite length_firstn; [|lia].
  replace (k - Nat.min k (List.length l))%nat with 0%nat by lia.
  reflexivity.
Qed.

Lemma start_resumes pf k t :
  ws t = None -> nth_error (starts t) k = Some AwaitUserMedia ->
  let t' := on_module pf k (on_media k t) in
  ws t' = None /\ audioCtx t' = Some (contextsOpened t)
  /\ workletNode t' = Some (nodesCreated t)
  /\ startDisabled t' = true /\ stopDisabled t' = false
  /\ statusText t' = statusText t /\ sent t' = sent t
  /\ contextsOpened t' = S (contextsOpened t)
  /\ nodesCreated t' = S (nodesCreated t)
  /\ contextsClosed t' = contextsClosed t.
Proof.
  intros Hws Hk t'. subst t'.
  unfold on_media. rewrite Hk.
  unfold on_module.
  cbn [starts set_starts set_audioCtx note_created].
  rewrite (nth_error_put k AwaitUserMedia (AwaitModule (contextsOpened t))
             (starts t) Hk).
  cbn [audioCtx set_starts set_audioCtx note_created note_loaded].
  unfold has_module.
  cbn [contextsLoaded set_starts set_audioCtx note_created note_loaded].
  rewrite existsb_app. cbn [existsb]. rewrite Nat.eqb_refl, orb_true_r. cbn [orb].
  cbn [ws set_starts set_audioCtx note_created note_loaded set_workletNode].
  rewrite Hws. cbn. repeat split; auto; lia.
Qed.

(** X7.  [stop] does not cancel a start in progress.  When [stop] runs
    while [start] waits for the microphone (the Stop button has to be
    enabled then, which [stop] and the end of [start] leave to the page
    as loaded), [start] goes on once the microphone is granted: it
    creates an audio context and a worklet node and swaps the buttons,
    although the page has no socket any more; no greeting is sent, and
    the status line keeps saying idle while the microphone is captured. *)
Theorem stop_does_not_cancel_a_start :
  forall (pf : platform) (s : client) (k : nat),
  nth_error (starts s) k = Some AwaitUserMedia ->
  let s' := run pf s [ClickStop; MediaGranted k; ModuleLoaded k] in
  ws s' = None /\ audioCtx s' = Some (contextsOpened s)
  /\ workletNode s' = Some (nodesCreated s)
  /\ contextsOpened s' = S (contextsOpened s)
  /\ nodesCreated s' = S (nodesCreated s)
  /\ startDisabled s' = true /\ stopDisabled s' = false
  /\ statusText s' = "idle" /\ sent s' = sent s.
Proof.
  intros pf s k Hk s'. subst s'. cbn [run fold_left step].
  destruct (stop_fields s)
    as (Hws & _ & _ & _ & _ & _ & _ & Hst & _ & _ & _ & _ & Hco & Hn & Hsent
        & Hstarts & _).
  rewrite <- Hstarts in Hk.
  destruct (start_resumes pf k (stop s) Hws Hk)
    as (H1 & H2 & H3 & H4 & H5 & H6 & H7 & H8 & H9 & _).
  rewrite H1, H2, H3, H4, H5, H6, H7, H8, H9, Hst, Hco, Hn, Hsent.
  repeat split; reflexivity.
Qed.

Lemma stop_does_not_cancel_a_start_witness :
  nth_error (starts clicked) 0 = Some AwaitUserMedia
  /\ ws clicked = Some 0%nat
  /\ ws (run browser clicked [ClickStop; MediaGranted 0; ModuleLoaded 0]) = None
  /\ workletNode (run browser clicked [ClickStop; MediaGranted 0; ModuleLoaded 0])
     = Some 0%nat
  /\ stopDisabled (run browser clicked [ClickStop; MediaGranted 0; ModuleLoaded 0])
     = false.
Proof.
  assert (Hk : nth_error (starts clicked) 0 = Some AwaitUserMedia)
    by (vm_compute; reflexivity).
  destruct (stop_does_not_cancel_a_start browser clicked 0 Hk)
    as (H1 & _ & H3 & _ & _ & _ & H5 & _).
  split; [exact Hk|]. split; [vm_compute; reflexivity|].
  split; [exact H1|]. split; [exact H3|exact H5].
Defined.

(** X19.  When [stop] runs while [start] waits for the worklet module,
    the start fails once the module is loaded: [audioCtx] is null by
    then, so no worklet node is created, nothing is sent, the buttons
    stay as [stop] left them and the failure is logged after the line of
    [stop]. *)
Theorem stop_while_the_module_loads_fails_the_start :
  forall (pf : platform) (s : client) (k ctx : nat),
  nth_error (starts s) k = Some (AwaitModule ctx) ->
  let s' := run pf s [ClickStop; ModuleLoaded k] in
  ws s' = None /\ audioCtx s' = None /\ workletNode s' = None
  /\ nodesCreated s' = nodesCreated s /\ sent s' = sent s
  /\ startDisabled s' = false /\ stopDisabled s' = true
  /\ starts s' = put k None (starts s)
  /\ logText s'
     = (logText s
        ++ ["Stopped."; ("Start failed: " ++ typeErrorMessage pf)%string])%list.
Proof.
  intros pf s k ctx Hk s'. subst s'. cbn [run fold_left step].
  destruct (stop_fields s)
    as (Hws & Hnode & Hctx & _ & _ & Hb1 & Hb2 & _ & Hlog & _ & _ & _ & _ & Hn
        & Hsent & Hstarts & _).
  rewrite <- Hstarts in Hk.
  set (t := stop s) in *. clearbody t.
  unfold on_module. rewrite Hk. cbn [audioCtx note_loaded]. rewrite Hctx.
  unfold start_failed. cbn.
  rewrite Hws, Hnode, Hctx, Hb1, Hb2, Hlog, Hn, Hsent, Hstarts, <- app_assoc.
  repeat split; reflexivity.
Qed.

Lemma stop_while_the_module_loads_fails_the_start_witness :
  nth_error (starts loading) 0 = Some (AwaitModule 0)
  /\ audioCtx loading = Some 0%nat
  /\ workletNode (run browser loading [ClickStop; ModuleLoaded 0]) = None
  /\ logText (run browser loading [ClickStop; ModuleLoaded 0])
     = ["Connected to local server."; "Stopped.";
        "Start failed: Failed to construct 'AudioWorkletNode': parameter 1 is not of type 'BaseAudioContext'."].
Proof.
  assert (Hk : nth_error (starts loading) 0 = Some (AwaitModule 0))
    by (vm_compute; reflexivity).
  destruct (stop_while_the_module_loads_fails_the_start browser loading 0 0 Hk)
    as (_ & _ & H3 & _ & _ & _ & _ & _ & H9).
  split; [exact Hk|]. split; [vm_compute; reflexivity|].
  split; [exact H3|]. rewrite H9. vm_compute. reflexivity.
Defined.

(** *** What the page holds is what it has opened and not closed *)

Lemma outside_fields s t :
  outside s = outside t ->
  ws s = ws t /\ audioCtx s = audioCtx t /\ workletNode s = workletNode t
  /\ starts s = starts t /\ statusText s = statusText t
  /\ startDisabled s = startDisabled t /\ stopDisabled s = stopDisabled t
  /\ socketsOpened s = socketsOpened t /\ socketsClosed s = socketsClosed t
  /\ contextsOpened s = contextsOpened t /\ contextsClosed s = contextsClosed t
  /\ nodesCreated s = nodesCreated t /\ sent s = sent t
  /\ socketsReady s = socketsReady t
  /\ contextsLoaded s = contextsLoaded t.
Proof. unfold outside. intros E. inversion E. repeat split; reflexivity. Qed.

Lemma outside_scheduler pf s ev :
  bystander ev = false -> is_stop ev = false ->
  outside (step pf s ev) = outside s.
Proof.
  destruct ev; try discriminate; intros _ _; cbn [step].
  - apply onmessage_aside.
  - unfold on_timer. destruct (nth_error (loops s) k) as [[|]|]; try reflexivity.
    destruct (ws s); [|reflexivity].
    pose proof (aside_drain s) as H. apply aside_fields in H.
    destruct (drain s) as [s1 w]. cbn [fst] in H. now rewrite <- (proj1 H).
  - unfold on_ended. destruct (nth_error (loops s) k) as [[|]|]; try reflexivity.
    pose proof (aside_drain s) as H. apply aside_fields in H.
    destruct (drain s) as [s1 w]. cbn [fst] in H. now rewrite <- (proj1 H).
Qed.

Lemma Forall_below (n m : nat) (l : list nat) :
  (n <= m)%nat -> Forall (fun id => (id < n)%nat) l ->
  Forall (fun id => (id < m)%nat) l.
Proof. intros Hnm. apply Forall_impl. intros; lia. Qed.

Lemma fresh_below (n : nat) (l : list nat) :
  Forall (fun id => (id < n)%nat) l -> ~ In n l.
Proof.
  intros H Hin. rewrite Forall_forall in H. specialize (H n Hin). lia.
Qed.

Lemma NoDup_snoc {A : Type} (x : A) (l : list A) :
  NoDup l -> ~ In x l -> NoDup (l ++ [x]).
Proof.
  intros Hl Hx. apply NoDup_app; [exact Hl|repeat constructor; auto|].
  intros y Hy [<-|[]]. auto.
Qed.

Lemma tidy_outside s t : outside s = outside t -> tidy t -> tidy s.
Proof.
  intros E. apply outside_fields in E.
  destruct E as (E1 & E2 & _ & _ & _ & _ & _ & E3 & E4 & E5 & E6 & _).
  unfold tidy. now rewrite E1, E2, E3, E4, E5, E6.
Qed.

Lemma tidy_grow s t :
  ws t = ws s -> audioCtx t = audioCtx s ->
  (socketsOpened s <= socketsOpened t)%nat -> socketsClosed t = socketsClosed s ->
  (contextsOpened s <= contextsOpened t)%nat -> contextsClosed t = contextsClosed s ->
  tidy s -> tidy t.
Proof.
  intros E1 E2 L1 E3 L2 E4 (Hws & Hctx & Hn1 & Hn2 & Hf1 & Hf2).
  unfold tidy. rewrite E1, E2, E3, E4.
  split; [|split; [|split; [|split; [|split]]]]; auto.
  - intros id H. destruct (Hws id H). split; [lia|assumption].
  - intros id H. destruct (Hctx id H). split; [lia|assumption].
  - now apply (Forall_below (socketsOpened s)).
  - now apply (Forall_below (contextsOpened s)).
Qed.

Lemma tidy_stop s : tidy s -> tidy (stop s).
Proof.
  intros (Hws & Hctx & Hn1 & Hn2 & Hf1 & Hf2).
  destruct (stop_fields s)
    as (E1 & _ & E2 & _ & _ & _ & _ & _ & _ & E3 & E4 & E5 & E6 & _).
  unfold tidy. rewrite E1, E2, E3, E4, E5, E6.
  split; [discriminate|]. split; [discriminate|].
  split; [|split; [|split]].
  - destruct (ws s) as [id|]; [|now rewrite app_nil_r].
    apply NoDup_snoc; [exact Hn1|]. now apply Hws.
  - destruct (audioCtx s) as [id|]; [|now rewrite app_nil_r].
    apply NoDup_snoc; [exact Hn2|]. now apply Hctx.
  - apply Forall_app. split; [exact Hf1|].
    destruct (ws s) as [id|]; [|constructor].
    repeat constructor. now apply Hws.
  - apply Forall_app. split; [exact Hf2|].
    destruct (audioCtx s) as [id|]; [|constructor].
    repeat constructor. now apply Hctx.
Qed.

Lemma tidy_step pf s ev : tidy s -> tidy (step pf s ev).
Proof.
  intros Ht.
  destruct (is_stop ev) eqn:Hstop.
  { destruct ev; try discriminate. now apply tidy_stop. }
  destruct (bystander ev) eqn:Hby.
  2:{ apply (tidy_outside _ s); [|exact Ht]. now apply outside_scheduler. }
  pose proof Ht as Hall.
  destruct Ht as (Hws & Hctx & Hn1 & Hn2 & Hf1 & Hf2).
  destruct ev; try discriminate; cbn [step].
  - unfold click_start. destruct (ws s) eqn:E.
    + unfold tidy. rewrite E. auto 7.
    + unfold tidy. cbn.
      split; [|split; [|split; [|split; [|split]]]]; auto.
      * intros id [= <-]. split; [lia|]. now apply fresh_below.
      * intros id H. destruct (Hctx id H). split; [lia|assumption].
      * apply (Forall_below (socketsOpened s)); [lia|assumption].
      * apply (Forall_below (contextsOpened s)); [lia|assumption].
  - unfold on_media. destruct (nth_error (starts s) k) as [[|]|];
      try (unfold tidy; auto 7; fail).
    unfold tidy. cbn.
    split; [|split; [|split; [|split; [|split]]]]; auto.
    + intros id H. destruct (Hws id H). split; [lia|assumption].
    + intros id [= <-]. split; [lia|]. now apply fresh_below.
    + apply (Forall_below (socketsOpened s)); [lia|assumption].
    + apply (Forall_below (contextsOpened s)); [lia|assumption].
  - unfold on_media_denied, start_failed.
    destruct (nth_error (starts s) k) as [[|]|]; unfold tidy; cbn; auto 7.
  - apply (tidy_grow s); [| | | | | |exact Hall];
      unfold on_module, start_failed;
      destruct (nth_error (starts s) k) as [[|own]|]; try reflexivity;
      cbn [audioCtx note_loaded];
      destruct (audioCtx s) eqn:E; try (cbn; rewrite ?E; auto; lia);
      try match goal with |- context [if ?b then _ else _] => destruct b end;
      try (cbn; rewrite ?E; auto; lia);
      cbn [ws set_workletNode note_created note_loaded];
      destruct (ws s) eqn:E'; cbn; rewrite ?E, ?E'; cbn;
      try match goal with |- context [if ?b then _ else _] => destruct b end;
      cbn; auto; lia.
  - unfold on_module_failed, start_failed.
    destruct (nth_error (starts s) k) as [[|]|]; unfold tidy; cbn; auto 7.
  - unfold onopen. destruct (can_open id s); [|exact Hall].
    unfold tidy; cbn; auto 7.
  - unfold tidy; cbn; auto 7.
  - unfold tidy; cbn.
    split; [discriminate|]. auto 7.
Qed.

Lemma tidy_run pf : forall trace s, tidy s -> tidy (run pf s trace).
Proof.
  induction trace as [|ev trace IH]; intros s Ht; [exact Ht|].
  rewrite ClientFacts.run_cons. apply IH. now apply tidy_step.
Qed.

(** X9.  Whatever happens on the page from the moment it is loaded, the
    socket and the audio context it holds are ones it has created and
    has not closed, and it closes no socket and no audio context twice:
    nothing is used after [close()]. *)
Theorem nothing_is_used_after_close :
  forall (pf : platform) (status : string) (startOff stopOff : bool)
         (trace : list event),
  let s := run pf (initial status startOff stopOff) trace in
  (forall id, ws s = Some id ->
     (id < socketsOpened s)%nat /\ ~ In id (socketsClosed s))
  /\ (forall id, audioCtx s = Some id ->
        (id < contextsOpened s)%nat /\ ~ In id (contextsClosed s))
  /\ NoDup (socketsClosed s) /\ NoDup (contextsClosed s).
Proof.
  intros pf status startOff stopOff trace s. subst s.
  assert (H0 : tidy (initial status startOff stopOff)).
  { unfold tidy. cbn. repeat split; try discriminate; constructor. }
  destruct (tidy_run pf trace _ H0) as (H1 & H2 & H3 & H4 & _).
  auto.
Qed.

(** *** The buttons and the greeting *)

Lemma gated_keep s t :
  workletNode t = workletNode s -> startDisabled t = startDisabled s ->
  stopDisabled t = stopDisabled s ->
  (audioCtx s <> None -> audioCtx t <> None) ->
  gated s -> gated t.
Proof.
  intros E1 E2 E3 H (G1 & G2 & G3).
  unfold gated. rewrite E1, E2, E3. auto.
Qed.

Lemma gated_step pf s ev : gated s -> gated (step pf s ev).
Proof.
  intros Hg.
  destruct (is_stop ev) eqn:Hstop.
  { destruct ev; try discriminate. cbn [step].
    destruct (stop_fields s) as (_ & E1 & _ & _ & _ & E2 & E3 & _).
    unfold gated. rewrite E1, E2, E3. repeat split; congruence. }
  destruct (bystander ev) eqn:Hby.
  2:{ pose proof (outside_scheduler pf s ev Hby Hstop) as E.
      apply outside_fields in E.
      destruct E as (_ & E2 & E3 & _ & _ & E6 & E7 & _).
      apply (gated_keep s); congruence. }
  destruct ev; try discriminate; cbn [step].
  - apply (gated_keep s); [| | | |exact Hg];
      unfold click_start; destruct (ws s); cbn; auto.
  - apply (gated_keep s); [| | | |exact Hg];
      unfold on_media; destruct (nth_error (starts s) k) as [[|]|]; cbn; auto.
    discriminate.
  - apply (gated_keep s); [| | | |exact Hg];
      unfold on_media_denied, start_failed;
      destruct (nth_error (starts s) k) as [[|]|]; cbn; auto.
  - unfold on_module, start_failed.
    destruct (nth_error (starts s) k) as [[|own]|]; try exact Hg.
    cbn [audioCtx note_loaded].
    destruct (audioCtx s) eqn:E;
      [|apply (gated_keep s); [| | | |exact Hg]; cbn; auto].
    match goal with |- context [if ?b then _ else _] => destruct b end;
      [|apply (gated_keep s); [| | | |exact Hg]; cbn; auto].
    destruct Hg as (G1 & G2 & G3).
    cbn [ws set_workletNode note_created note_loaded].
    destruct (ws s) eqn:E';
      try match goal with |- context [if ?b then _ else _] => destruct b end;
      unfold gated; cbn; rewrite ?E; repeat split; auto; discriminate.
  - apply (gated_keep s); [| | | |exact Hg];
      unfold on_module_failed, start_failed;
      destruct (nth_error (starts s) k) as [[|]|]; cbn; auto.
  - apply (gated_keep s); [| | | |exact Hg];
      unfold onopen; destruct (can_open id s); cbn; auto.
  - apply (gated_keep s); [| | | |exact Hg]; cbn; auto.
  - apply (gated_keep s); [| | | |exact Hg]; cbn; auto.
Qed.

Lemma gated_run pf : forall trace s, gated s -> gated (run pf s trace).
Proof.
  induction trace as [|ev trace IH]; intros s Hg; [exact Hg|].
  rewrite ClientFacts.run_cons. apply IH. now apply gated_step.
Qed.

(** X10.  On a page loaded with Start enabled and Stop disabled, through
    everything that happens: Stop is enabled exactly when Start is
    disabled, this only while a worklet node exists, and a worklet node
    never exists without an audio context.  The converse fails: a start
    that fails at the greeting leaves a worklet node behind with Start
    enabled and Stop disabled (X20). *)
Theorem stop_is_enabled_only_while_capturing :
  forall (pf : platform) (status : string) (trace : list event),
  let s := run pf (initial status false true) trace in
  (startDisabled s = true -> workletNode s <> None)
  /\ stopDisabled s = negb (startDisabled s)
  /\ (workletNode s <> None -> audioCtx s <> None).
Proof.
  intros pf status trace s. subst s.
  apply gated_run. unfold gated. cbn. repeat split; congruence.
Qed.

(** X20.  When the worklet module is loaded while the socket the page
    holds is still connecting, [send] throws on the greeting: the start
    fails after it has created the worklet node, with the audio context
    and the socket still held; nothing is sent, the buttons stay as they
    were, the failure is logged, and a further click on Start returns at
    [if (ws) return]. *)
Theorem greeting_on_a_connecting_socket_fails_the_start :
  forall (pf : platform) (s : client) (k id ctx : nat),
  nth_error (starts s) k = Some (AwaitModule ctx) ->
  audioCtx s = Some ctx -> ws s = Some id -> is_open id s = false ->
  let s' := step pf s (ModuleLoaded k) in
  workletNode s' = Some (nodesCreated s)
  /\ nodesCreated s' = S (nodesCreated s)
  /\ audioCtx s' = Some ctx /\ ws s' = Some id
  /\ sent s' = sent s
  /\ startDisabled s' = startDisabled s /\ stopDisabled s' = stopDisabled s
  /\ starts s' = put k None (starts s)
  /\ logText s'
     = (logText s ++ [("Start failed: " ++ invalidStateMessage pf)%string])%list
  /\ step pf s' ClickStart = s'.
Proof.
  intros pf s k id ctx Hk Hctx Hws Hopen s'. subst s'. cbn [step].
  unfold on_module. rewrite Hk. cbn [audioCtx note_loaded]. rewrite Hctx.
  unfold has_module. cbn [contextsLoaded note_loaded].
  rewrite existsb_app. cbn [existsb]. rewrite Nat.eqb_refl, orb_true_r. cbn [orb].
  cbn [ws set_workletNode note_created note_loaded].
  rewrite Hws.
  unfold is_open in *. cbn [socketsReady set_workletNode note_created note_loaded].
  rewrite Hopen. unfold start_failed, click_start. cbn.
  rewrite Hws, Hctx. repeat split; try reflexivity. lia.
Qed.

Lemma greeting_on_a_connecting_socket_fails_the_start_witness :
  nth_error (starts hasty) 0 = Some (AwaitModule 0)
  /\ ws hasty = Some 0%nat /\ is_open 0 hasty = false
  /\ workletNode (step browser hasty (ModuleLoaded 0)) = Some 0%nat
  /\ startDisabled (step browser hasty (ModuleLoaded 0)) = false
  /\ stopDisabled (step browser hasty (ModuleLoaded 0)) = true
  /\ sent (step browser hasty (ModuleLoaded 0)) = []
  /\ logText (step browser hasty (ModuleLoaded 0))
     = ["Start failed: Failed to execute 'send' on 'WebSocket': Still in CONNECTING state."].
Proof.
  assert (Hk : nth_error (starts hasty) 0 = Some (AwaitModule 0))
    by (vm_compute; reflexivity).
  assert (Hctx : audioCtx hasty = Some 0%nat) by (vm_compute; reflexivity).
  assert (Hws : ws hasty = Some 0%nat) by (vm_compute; reflexivity).
  assert (Hopen : is_open 0 hasty = false) by (vm_compute; reflexivity).
  destruct (greeting_on_a_connecting_socket_fails_the_start browser hasty 0 0 0
              Hk Hctx Hws Hopen)
    as (H1 & _ & _ & _ & H5 & H6 & H7 & _ & H9 & _).
  split; [exact Hk|]. split; [exact Hws|]. split; [exact Hopen|].
  split; [exact H1|]. split; [rewrite H6; vm_compute; reflexivity|].
  split; [rewrite H7; vm_compute; reflexivity|].
  split; [rewrite H5; vm_compute; reflexivity|].
  rewrite H9. vm_compute. reflexivity.
Defined.

(** X22.  The worklet node is built on the audio context that
    [audioCtx] holds when [addModule] resolves, not on the one the module
    was added to.  When a later [start] has put its own context there and
    that context has no module yet, the constructor of line 24 throws:
    the earlier start fails without a worklet node, a greeting or a
    change of the buttons, and the failure is logged. *)
Theorem start_resumes_on_another_context :
  forall (pf : platform) (s : client) (k own ctx : nat),
  nth_error (starts s) k = Some (AwaitModule own) ->
  audioCtx s = Some ctx -> ctx <> own -> has_module ctx s = false ->
  let s' := step pf s (ModuleLoaded k) in
  workletNode s' = workletNode s /\ nodesCreated s' = nodesCreated s
  /\ audioCtx s' = Some ctx /\ ws s' = ws s /\ sent s' = sent s
  /\ startDisabled s' = startDisabled s /\ stopDisabled s' = stopDisabled s
  /\ starts s' = put k None (starts s)
  /\ has_module own s' = true
  /\ logText s'
     = (logText s ++ [("Start failed: " ++ unknownProcessorMessage pf)%string])%list.
Proof.
  intros pf s k own ctx Hk Hctx Hne Hmod s'. subst s'. cbn [step].
  unfold on_module. rewrite Hk. cbn [audioCtx note_loaded]. rewrite Hctx.
  unfold has_module in *. cbn [contextsLoaded note_loaded].
  rewrite existsb_app, Hmod. cbn [existsb orb].
  destruct (Nat.eqb_spec ctx own) as [Heq|_]; [contradiction|].
  unfold start_failed. cbn.
  rewrite Hctx, existsb_app. cbn [existsb]. rewrite Nat.eqb_refl, orb_true_r.
  repeat split; reflexivity.
Qed.

Lemma start_resumes_on_another_context_witness :
  nth_error (starts overtaken) 0 = Some (AwaitModule 0)
  /\ starts overtaken = [AwaitModule 0; AwaitModule 1]
  /\ audioCtx overtaken = Some 1%nat
  /\ workletNode (step browser overtaken (ModuleLoaded 0)) = None
  /\ starts (step browser overtaken (ModuleLoaded 0)) = [AwaitModule 1]
  /\ startDisabled (step browser overtaken (ModuleLoaded 0)) = false
  /\ workletNode (run browser overtaken [ModuleLoaded 0; ModuleLoaded 0])
     = Some 0%nat.
Proof.
  assert (Hk : nth_error (starts overtaken) 0 = Some (AwaitModule 0))
    by (vm_compute; reflexivity).
  assert (Hctx : audioCtx overtaken = Some 1%nat) by (vm_compute; reflexivity).
  assert (Hne : 1%nat <> 0%nat) by discriminate.
  assert (Hmod : has_module 1 overtaken = false) by (vm_compute; reflexivity).
  destruct (start_resumes_on_another_context browser overtaken 0 0 1
              Hk Hctx Hne Hmod)
    as (H1 & _ & _ & _ & _ & H6 & _ & H8 & _).
  split; [exact Hk|]. split; [vm_compute; reflexivity|]. split; [exact Hctx|].
  split; [rewrite H1; vm_compute; reflexivity|].
  split; [rewrite H8; vm_compute; reflexivity|].
  split; [rewrite H6; vm_compute; reflexivity|].
  vm_compute. reflexivity.
Defined.






(** *** A close event that comes late *)

(** X16.  The close handler of a socket clears [ws] whichever socket the
    variable holds by then.  When Stop and then Start are clicked on a
    page that holds a socket, and the close event of that first socket
    comes only afterwards, the page forgets the socket it has just
    opened: that one is neither closed nor held, the status line says
    closed, the start in progress goes on, and buffers the worklet posts
    are sent nowhere. *)
Theorem late_close_forgets_the_new_socket :
  forall (pf : platform) (status : string) (startOff stopOff : bool)
         (trace : list event) (old : nat),
  ws (run pf (initial status startOff stopOff) trace) = Some old ->
  let s := run pf (initial status startOff stopOff) trace in
  let s' := run pf s [ClickStop; ClickStart; WsClose] in
  ws s' = None
  /\ socketsOpened s' = S (socketsOpened s)
  /\ socketsClosed s' = (socketsClosed s ++ [old])%list
  /\ ~ In (socketsOpened s) (socketsClosed s')
  /\ statusText s' = "closed"
  /\ starts s' = (starts s ++ [AwaitUserMedia])%list
  /\ (forall buf, Capture.port_onmessage buf s' = None).
Proof.
  intros pf status startOff stopOff trace old Hws s s'.
  assert (Ht : tidy s).
  { apply tidy_run. unfold tidy. cbn. repeat split; try discriminate; constructor. }
  fold s in Hws. clearbody s. subst s'. cbn [run fold_left step].
  destruct (stop_fields s)
    as (E1 & _ & _ & _ & _ & _ & _ & _ & _ & E2 & _ & E3 & _ & _ & _ & E4 & _).
  rewrite Hws in E2.
  set (t := stop s) in *. clearbody t.
  unfold click_start. rewrite E1. unfold onclose, Capture.port_onmessage. cbn.
  rewrite E2, E3, E4.
  destruct Ht as (Hold & _ & _ & _ & Hbelow & _).
  destruct (Hold old Hws) as (Hlt & _).
  repeat split; try lia.
  intros Hin. apply in_app_or in Hin. destruct Hin as [Hin|[Hin|[]]].
  - now apply (fresh_below _ _ Hbelow).
  - lia.
Qed.

Lemma late_close_forgets_the_new_socket_witness :
  ws ready = Some 0%nat
  /\ stopDisabled ready = false
  /\ startDisabled (run browser ready [ClickStop]) = false
  /\ ws (run browser ready [ClickStop; ClickStart]) = Some 1%nat
  /\ ws (run browser ready [ClickStop; ClickStart; WsClose]) = None
  /\ socketsClosed (run browser ready [ClickStop; ClickStart; WsClose]) = [0%nat].
Proof.
  assert (Hws : ws (run browser (initial "idle" false true)
                      [ClickStart; WsOpen 0; MediaGranted 0; ModuleLoaded 0])
                = Some 0%nat)
    by (vm_compute; reflexivity).
  destruct (late_close_forgets_the_new_socket browser "idle" false true _ 0 Hws)
    as (H1 & _ & H3 & _).
  split; [exact Hws|]. split; [vm_compute; reflexivity|].
  split; [vm_compute; reflexivity|]. split; [vm_compute; reflexivity|].
  split; [exact H1|exact H3].
Defined.

(** *** What reaches the device *)

Lemma holds_from_spec f : forall n lo k,
  holds_from n lo f = true -> (lo <= k < lo + 2 ^ Z.of_nat n)%Z -> f k = true.
Proof.
  induction n as [|n IH]; intros lo k H Hk.
  - cbn in H, Hk. now replace k with lo by lia.
  - cbn [holds_from] in H. apply andb_prop in H. destruct H as (H1 & H2).
    rewrite Nat2Z.inj_succ, Z.pow_succ_r in Hk by lia.
    destruct (Z_lt_ge_dec k (lo + 2 ^ Z.of_nat n)) as [Hlow|Hhigh].
    + apply (IH lo); [exact H1|lia].
    + apply (IH (lo + 2 ^ Z.of_nat n)%Z); [exact H2|lia].
Qed.

Lemma in_unit_int16 k :
  (-32768 <= k <= 32767)%Z ->
  in_unit (JsNum.float_of_int16 k / 32768)%float = true.
Proof.
  intros Hk.
  assert (Hall : holds_from 16 (-32768)
                   (fun k => in_unit (JsNum.float_of_int16 k / 32768)%float) = true)
    by (vm_compute; reflexivity).
  apply (holds_from_spec _ 16 (-32768)%Z k Hall).
  change (2 ^ Z.of_nat 16)%Z with 65536%Z. lia.
Qed.

(** X17.  Whatever bytes a chunk holds, lines 201-207 make one sample of
    each pair of them (the loop does not get through a chunk of odd
    length, whose last byte is left out here), and every sample lies from
    -1 up to, not including, 1: playback never leaves the range of the
    output. *)
Theorem decoded_samples_are_in_range :
  forall bytes : list Z,
  List.length (pcm16_to_f32 bytes) = Nat.div (List.length bytes) 2
  /\ Forall (fun x => in_unit x = true) (pcm16_to_f32 bytes).
Proof.
  assert (H : forall n bytes, (List.length bytes <= n)%nat ->
              List.length (pcm16_to_f32 bytes) = Nat.div (List.length bytes) 2
              /\ Forall (fun x => in_unit x = true) (pcm16_to_f32 bytes)).
  { induction n as [|n IH]; intros bytes Hn.
    - destruct bytes; [|cbn in Hn; lia]. split; [reflexivity|constructor].
    - destruct bytes as [|lo [|hi rest]];
        try (split; [reflexivity|constructor]).
      destruct (IH rest ltac:(cbn in Hn; lia)) as (Hlen & Hall).
      cbn [pcm16_to_f32 List.length]. split.
      + rewrite Hlen.
        change (S (S (List.length rest))) with (2 + List.length rest)%nat.
        replace (2 + List.length rest)%nat with (List.length rest + 1 * 2)%nat by lia.
        rewrite Nat.div_add by lia. lia.
      + constructor; [|exact Hall].
        apply in_unit_int16. apply MicWorkletFacts.wrap16_range. }
  intros bytes. apply (H (List.length bytes)). lia.
Qed.

End PageFacts.

(** ** The capture path: what is sent for a frame can be read back *)

Module CaptureFacts.
Import Js Capture.
Local Open Scope N_scope.

(** *** Arithmetic of the digits *)

Lemma recompose4 n :
  (n / 262144) * 262144 + ((n / 4096) mod 64) * 4096 + ((n / 64) mod 64) * 64
  + n mod 64 = n.
Proof. zify. Z.to_euclidean_division_equations. lia. Qed.

Lemma split3 a b c :
  a < 256 -> b < 256 -> c < 256 ->
  (a * 65536 + b * 256 + c) / 65536 = a
  /\ ((a * 65536 + b * 256 + c) / 256) mod 256 = b
  /\ (a * 65536 + b * 256 + c) mod 256 = c.
Proof. intros. zify. Z.to_euclidean_division_equations. lia. Qed.

Lemma recompose3 n :
  (n / 4096) * 4096 + ((n / 64) mod 64) * 64 + n mod 64 = n.
Proof. zify. Z.to_euclidean_division_equations. lia. Qed.

Lemma split2 a b :
  a < 256 -> b < 256 ->
  (a * 1024 + b * 4) / 1024 = a /\ ((a * 1024 + b * 4) / 4) mod 256 = b.
Proof. intros. zify. Z.to_euclidean_division_equations. lia. Qed.

Lemma split1 a : a < 256 -> ((a / 4) * 64 + (a mod 4) * 16) / 16 = a.
Proof. intros. zify. Z.to_euclidean_division_equations. lia. Qed.

(** Lists three elements at a time. *)
Lemma by_threes {A : Type} (P : list A -> Prop) :
  P [] -> (forall a, P [a]) -> (forall a b, P [a; b]) ->
  (forall a b c rest, P rest -> P (a :: b :: c :: rest)) ->
  forall l, P l.
Proof.
  intros H0 H1 H2 H3.
  assert (H : forall n l, (List.length l <= n)%nat -> P l).
  { induction n as [|n IH]; intros l Hl.
    - destruct l; [exact H0|cbn in Hl; lia].
    - destruct l as [|a [|b [|c rest]]]; auto.
      apply H3. apply IH. cbn in Hl. lia. }
  intros l. apply (H (List.length l)). lia.
Qed.

Lemma sextets_below : forall bytes,
  Forall (fun b => b < 256) bytes -> Forall (fun d => d < 64) (sextets bytes).
Proof.
  apply (by_threes (fun bytes => Forall (fun b => b < 256) bytes ->
                                 Forall (fun d => d < 64) (sextets bytes))).
  - constructor.
  - intros a H. inversion_clear H as [|? ? Ha _]. cbn [sextets].
    repeat constructor.
    + apply N.Div0.div_lt_upper_bound. lia.
    + pose proof (N.mod_lt a 4 ltac:(lia)). lia.
  - intros a b H. inversion_clear H as [|? ? Ha H']. inversion_clear H' as [|? ? Hb _].
    cbn [sextets]. repeat constructor.
    + apply N.Div0.div_lt_upper_bound. lia.
    + apply N.mod_lt. lia.
    + apply N.mod_lt. lia.
  - intros a b c rest IH H.
    inversion_clear H as [|? ? Ha H']. inversion_clear H' as [|? ? Hb H''].
    inversion_clear H'' as [|? ? Hc Hrest].
    cbn [sextets]. repeat constructor; try (apply N.mod_lt; lia).
    + apply N.Div0.div_lt_upper_bound. lia.
    + now apply IH.
Qed.

Lemma bytes_of_sextets : forall bytes,
  Forall (fun b => b < 256) bytes ->
  Base64.bytes_of_digits (sextets bytes) = bytes.
Proof.
  apply (by_threes (fun bytes => Forall (fun b => b < 256) bytes ->
                                 Base64.bytes_of_digits (sextets bytes) = bytes)).
  - reflexivity.
  - intros a H. inversion_clear H as [|? ? Ha _].
    cbn [sextets Base64.bytes_of_digits]. now rewrite split1.
  - intros a b H. inversion_clear H as [|? ? Ha H']. inversion_clear H' as [|? ? Hb _].
    cbn [sextets Base64.bytes_of_digits]. rewrite recompose3.
    destruct (split2 a b Ha Hb) as (-> & ->). reflexivity.
  - intros a b c rest IH H.
    inversion_clear H as [|? ? Ha H']. inversion_clear H' as [|? ? Hb H''].
    inversion_clear H'' as [|? ? Hc Hrest].
    cbn [sextets Base64.bytes_of_digits]. rewrite recompose4.
    destruct (split3 a b c Ha Hb Hc) as (-> & -> & ->).
    now rewrite (IH Hrest).
Qed.

(** *** The characters of the digits *)

Lemma digit_char_plain d : d < 64 -> plain d = true.
Proof.
  intros H.
  assert (Hall : forallb plain (map N.of_nat (seq 0 64)) = true)
    by (vm_compute; reflexivity).
  rewrite forallb_forall in Hall. apply Hall.
  rewrite <- (Nnat.N2Nat.id d). apply in_map. apply in_seq. lia.
Qed.

Lemma digit_digit_char d :
  d < 64 ->
  Base64.digit (digit_char d) = Some d
  /\ Base64.is_space (digit_char d) = false
  /\ Base64.is_pad (digit_char d) = false.
Proof.
  intros H. pose proof (digit_char_plain d H) as Hp. unfold plain in Hp.
  apply andb_prop in Hp. destruct Hp as (Hp & Hpad).
  apply andb_prop in Hp. destruct Hp as (Hd & Hsp).
  destruct (Base64.digit (digit_char d)) as [d'|]; [|discriminate].
  apply N.eqb_eq in Hd. subst d'.
  now destruct (Base64.is_space _), (Base64.is_pad _).
Qed.

Lemma digits_digit_chars ds :
  Forall (fun d => d < 64) ds ->
  Base64.digits (map digit_char ds) = Some ds.
Proof.
  induction 1 as [|d ds Hd _ IH]; [reflexivity|].
  cbn [map Base64.digits].
  destruct (digit_digit_char d Hd) as (-> & _). now rewrite IH.
Qed.

(** *** Padding *)

Lemma padding_shape : forall bytes,
  exists k,
    (List.length (sextets bytes) = (4 * k)%nat /\ padding bytes = [])
    \/ (List.length (sextets bytes) = (4 * k + 2)%nat
        /\ padding bytes = ["="%char; "="%char])
    \/ (List.length (sextets bytes) = (4 * k + 3)%nat
        /\ padding bytes = ["="%char]).
Proof.
  apply (by_threes (fun bytes => exists k,
    (List.length (sextets bytes) = (4 * k)%nat /\ padding bytes = [])
    \/ (List.length (sextets bytes) = (4 * k + 2)%nat
        /\ padding bytes = ["="%char; "="%char])
    \/ (List.length (sextets bytes) = (4 * k + 3)%nat
        /\ padding bytes = ["="%char]))).
  - exists 0%nat. left. split; reflexivity.
  - intros a. exists 0%nat. right. left. split; reflexivity.
  - intros a b. exists 0%nat. right. right. split; reflexivity.
  - intros a b c rest (k & IH). exists (S k).
    assert (Hpad : padding (a :: b :: c :: rest) = padding rest).
    { unfold padding. cbn [List.length].
      replace (S (S (S (List.length rest)))) with (List.length rest + 1 * 3)%nat by lia.
      now rewrite Nat.Div0.mod_add. }
    rewrite Hpad. cbn [sextets List.length].
    destruct IH as [(-> & ->)|[(-> & ->)|(-> & ->)]];
      [left|right; left|right; right]; split; auto; lia.
Qed.

Lemma strip_padding_plain l :
  Forall (fun c => Base64.is_pad c = false) l -> Base64.strip_padding l = l.
Proof.
  intros H. destruct l as [|p [|q r]]; [reflexivity| |];
    inversion_clear H as [|? ? Hp _]; cbn [Base64.strip_padding]; now rewrite Hp.
Qed.

Lemma filter_all {A : Type} (f : A -> bool) (l : list A) :
  Forall (fun x => f x = true) l -> filter f l = l.
Proof.
  induction 1 as [|x l Hx _ IH]; [reflexivity|].
  cbn [filter]. now rewrite Hx, IH.
Qed.

Lemma mod4_0 k : (Nat.modulo (4 * k) 4 = 0)%nat.
Proof. rewrite Nat.mul_comm. apply Nat.Div0.mod_mul. Qed.

Lemma mod4_r k r : (r < 4)%nat -> (Nat.modulo (4 * k + r) 4 = r)%nat.
Proof.
  intros H. rewrite Nat.add_comm, (Nat.mul_comm 4 k), Nat.Div0.mod_add.
  now apply Nat.mod_small.
Qed.

(** [atob] undoes [btoa], on the bytes. *)
Lemma atob_of_digits bytes :
  Forall (fun b => b < 256) bytes ->
  Base64.atob (string_of_list_ascii (map digit_char (sextets bytes) ++ padding bytes))
  = Some (string_of_list_ascii (map ascii_of_N bytes)).
Proof.
  intros Hbytes. unfold Base64.atob.
  rewrite list_ascii_of_string_of_list_ascii.
  pose proof (sextets_below bytes Hbytes) as Hds.
  set (ds := sextets bytes) in *.
  assert (Hspace : Forall (fun c => negb (Base64.is_space c) = true) (map digit_char ds)).
  { apply Forall_map. revert Hds. apply Forall_impl. intros d Hd.
    destruct (digit_digit_char d Hd) as (_ & -> & _). reflexivity. }
  assert (Hpad : Forall (fun c => Base64.is_pad c = false) (rev (map digit_char ds))).
  { apply Forall_rev. apply Forall_map. revert Hds. apply Forall_impl. intros d Hd.
    now destruct (digit_digit_char d Hd) as (_ & _ & ->). }
  assert (Hfilter : filter (fun c => negb (Base64.is_space c))
                      (map digit_char ds ++ padding bytes)
                    = (map digit_char ds ++ padding bytes)%list).
  { apply filter_all. apply Forall_app. split; [exact Hspace|].
    destruct (padding_shape bytes) as (k & [(_ & ->)|[(_ & ->)|(_ & ->)]]);
      repeat constructor. }
  rewrite Hfilter.
  assert (Hstrip : (Nat.modulo (List.length (map digit_char ds ++ padding bytes)) 4
                    =? 0)%nat = true
                   /\ rev (Base64.strip_padding (rev (map digit_char ds ++ padding bytes)))
                      = map digit_char ds
                   /\ (Nat.modulo (List.length (map digit_char ds)) 4 =? 1)%nat = false).
  { rewrite length_app, !length_map. fold ds.
    destruct (padding_shape bytes) as (k & [(Hlen & ->)|[(Hlen & ->)|(Hlen & ->)]]);
      fold ds in Hlen; rewrite Hlen; cbn [List.length].
    - rewrite Nat.add_0_r, mod4_0, app_nil_r, (strip_padding_plain _ Hpad),
        rev_involutive. auto.
    - replace (4 * k + 2 + 2)%nat with (4 * S k)%nat by lia.
      rewrite mod4_0, (mod4_r k 2 ltac:(lia)), rev_app_distr.
      cbn [rev app Base64.strip_padding].
      change (Base64.is_pad "="%char) with true. cbn iota.
      rewrite rev_involutive. auto.
    - replace (4 * k + 3 + 1)%nat with (4 * S k)%nat by lia.
      rewrite mod4_0, (mod4_r k 3 ltac:(lia)), rev_app_distr.
      cbn [rev app].
      destruct (rev (map digit_char ds)) as [|q r] eqn:Erev.
      + apply (f_equal (@List.length ascii)) in Erev.
        rewrite length_rev, length_map, Hlen in Erev. cbn in Erev. lia.
      + cbn [Base64.strip_padding].
        change (Base64.is_pad "="%char) with true. cbn iota.
        inversion_clear Hpad as [|? ? Hq _]. rewrite Hq.
        rewrite <- Erev, rev_involutive. auto. }
  destruct Hstrip as (-> & -> & ->).
  rewrite (digits_digit_chars ds Hds). unfold ds.
  now rewrite (bytes_of_sextets bytes Hbytes).
Qed.

Lemma atob_btoa s : Base64.atob (btoa s) = Some s.
Proof.
  unfold btoa. cbv zeta.
  rewrite atob_of_digits.
  - rewrite map_map.
    rewrite (map_ext _ (fun c => c) ascii_N_embedding), map_id.
    now rewrite string_of_list_ascii_of_string.
  - apply Forall_map. apply Forall_forall. intros c _. apply N_ascii_bounded.
Qed.

Lemma bytes_of_fromCharCode buf :
  Forall is_byte buf -> Client.bytes_of_binary (fromCharCode buf) = buf.
Proof.
  intros H. unfold Client.bytes_of_binary, fromCharCode.
  rewrite list_ascii_of_string_of_list_ascii, map_map.
  induction H as [|b buf Hb _ IH]; [reflexivity|].
  cbn [map]. rewrite IH. f_equal.
  unfold is_byte in Hb. rewrite N_ascii_embedding by lia. lia.
Qed.

Lemma payload_nonempty buf : buf <> [] -> payload buf <> EmptyString.
Proof.
  intros Hbuf E.
  pose proof (atob_btoa (fromCharCode buf)) as H.
  fold (payload buf) in H. rewrite E in H.
  vm_compute in H. injection H as H.
  destruct buf as [|b buf]; [congruence|]. discriminate.
Qed.

Lemma envelope_reads_back buf :
  Forall is_byte buf ->
  Client.envelope_audio Client.browser
    (Client.server_envelope false [Client.audio_part (payload buf)])
  = match buf with [] => [] | _ => [buf] end.
Proof.
  intros Hbuf.
  assert (Hatob : Base64.atob (payload buf) = Some (fromCharCode buf))
    by apply atob_btoa.
  assert (Hempty : String.eqb (payload buf) EmptyString
                   = match buf with [] => true | _ => false end).
  { destruct buf as [|b buf]; [reflexivity|].
    apply String.eqb_neq. now apply payload_nonempty. }
  unfold Client.envelope_audio, Client.server_content, Client.server_envelope,
    Client.audio_part, Client.inline_audio.
  cbn [get own String.eqb Ascii.eqb Bool.eqb truthy negb andb length_truthy index0
       Client.ToString Client.atob Client.browser].
  rewrite Hempty, Hatob, (bytes_of_fromCharCode buf Hbuf).
  now destruct buf.
Qed.

(** X12.  What the page sends for a buffer posted by the worklet can be
    read back: the [data] of the envelope is base64 that [atob] accepts,
    and decoding it as the page decodes the audio it receives (line 124)
    gives the bytes of the buffer again, each one, in order.  Wrapped as
    inline data of a server envelope, it brings the message handler that
    very chunk, unless the buffer is empty, whose empty string the
    handler takes for no audio. *)
Theorem sent_audio_reads_back :
  forall (s : Client.client) (id : nat) (buf : list Z),
  Client.ws s = Some id -> Forall is_byte buf ->
  exists b64 : string,
    port_onmessage buf s
    = Some (id, VObj [("realtimeInput"%string,
                       VObj [("audio"%string,
                              VObj [("data"%string, VStr b64);
                                    ("mimeType"%string,
                                     VStr "audio/pcm;rate=16000"%string)])])])
    /\ option_map Client.bytes_of_binary (Base64.atob b64) = Some buf
    /\ Client.envelope_audio Client.browser
         (Client.server_envelope false [Client.audio_part b64])
       = match buf with [] => [] | _ => [buf] end.
Proof.
  intros s id buf Hws Hbuf. exists (payload buf).
  split; [unfold port_onmessage; now rewrite Hws|].
  split; [|now apply envelope_reads_back].
  unfold payload. rewrite atob_btoa. cbn [option_map].
  now rewrite bytes_of_fromCharCode.
Qed.

Lemma sent_audio_reads_back_witness :
  Client.ws Client.ready = Some 0%nat
  /\ Forall is_byte [0; 255; 128; 127]%Z
  /\ exists b64 : string,
       port_onmessage [0; 255; 128; 127]%Z Client.ready
       = Some (0%nat,
               VObj [("realtimeInput"%string,
                      VObj [("audio"%string,
                             VObj [("data"%string, VStr b64);
                                   ("mimeType"%string,
                                    VStr "audio/pcm;rate=16000"%string)])])])
       /\ Client.envelope_audio Client.browser
            (Client.server_envelope false [Client.audio_part b64])
          = [[0; 255; 128; 127]%Z].
Proof.
  assert (Hws : Client.ws Client.ready = Some 0%nat) by (vm_compute; reflexivity).
  assert (Hbuf : Forall is_byte [0; 255; 128; 127]%Z)
    by (repeat constructor; unfold is_byte; lia).
  destruct (sent_audio_reads_back Client.ready 0 _ Hws Hbuf)
    as (b64 & Hsent & _ & Hback).
  split; [exact Hws|]. split; [exact Hbuf|].
  exists b64. split; [exact Hsent|exact Hback].
Defined.

(** *** From the microphone to the wire *)

Lemma emit_chunks_bytes : forall fuel n buf posted rest,
  MicWorklet.emit_chunks fuel n buf = Some (posted, rest) ->
  Forall (Forall is_byte) posted.
Proof.
  induction fuel as [|fuel IH]; intros n buf posted rest H;
    cbn [MicWorklet.emit_chunks] in H;
    destruct (Z.of_nat (List.length buf) <? n)%Z;
    try (injection H as <- <-; constructor); try discriminate.
  destruct (MicWorklet.emit_chunks fuel n (skipn (Z.to_nat n) buf))
    as [[p r]|] eqn:E; [|discriminate].
  injection H as <- <-. constructor; [|exact (IH _ _ _ _ E)].
  unfold MicWorklet.encode_chunk. apply Forall_flat_map.
  apply Forall_forall. intros x _. apply MicWorkletFacts.setInt16_bytes.
Qed.

Lemma process_bytes w inputs w' posted :
  MicWorklet.process w inputs = Some (w', posted) ->
  Forall (Forall is_byte) posted.
Proof.
  unfold MicWorklet.process.
  destruct inputs as [|[|ch others] more];
    try (intros [= <- <-]; constructor).
  destruct (MicWorklet.resample _ _ ch) as [acc' pushed].
  destruct (MicWorklet.samplesPerChunk w) as [n|]; [|intros [= <- <-]; constructor].
  destruct (MicWorklet.emit_chunks _ n _) as [[p r]|] eqn:E; [|discriminate].
  intros [= <- <-]. exact (emit_chunks_bytes _ _ _ _ _ E).
Qed.

Lemma run_bytes : forall calls w w' posted,
  MicWorklet.run w calls = Some (w', posted) ->
  Forall (Forall is_byte) posted.
Proof.
  induction calls as [|inputs calls IH]; intros w w' posted H;
    cbn [MicWorklet.run] in H.
  - injection H as <- <-. constructor.
  - destruct (MicWorklet.process w inputs) as [[w1 p1]|] eqn:E1; [|discriminate].
    destruct (MicWorklet.run w1 calls) as [[w2 p2]|] eqn:E2; [|discriminate].
    injection H as <- <-. apply Forall_app. split.
    + exact (process_bytes _ _ _ _ E1).
    + exact (IH _ _ _ E2).
Qed.

(** X18.  From the microphone to the wire and back: whatever the capture
    rate and the calls of [process], every buffer the worklet posts is a
    buffer of bytes, 640 of them, and the envelope the page makes of it
    carries these bytes as they are: read as the page reads the audio it
    receives, it gives the same buffer, whose 320 numbers are the 16-bit
    samples the worklet wrote, over 32768. *)
Theorem posted_buffers_read_back :
  forall (sampleRate : float) (calls : list (list (list (list float)))),
  exists w' posted,
    MicWorklet.run (MicWorklet.constructor sampleRate) calls = Some (w', posted)
    /\ Forall (fun frame =>
                 Forall is_byte frame
                 /\ List.length frame = 640%nat
                 /\ Client.envelope_audio Client.browser
                      (Client.server_envelope false
                         [Client.audio_part (payload frame)])
                    = [frame]
                 /\ Client.decodable frame = true
                 /\ Client.pcm16_to_f32 frame
                    = map (fun k => (JsNum.float_of_int16 k / 32768)%float)
                        (MicWorklet.frame_samples frame)) posted.
Proof.
  intros sampleRate calls.
  destruct (MicWorkletFacts.run_from_constructor sampleRate calls)
    as (w' & posted & Hrun & (_ & _ & _ & Hlen & _) & _).
  exists w', posted. split; [exact Hrun|].
  pose proof (run_bytes _ _ _ _ Hrun) as Hbytes.
  rewrite Forall_forall in *. intros frame Hin.
  destruct (Hlen frame Hin) as (H640 & _).
  split; [now apply Hbytes|]. split; [exact H640|].
  split; [|split].
  - rewrite (envelope_reads_back frame (Hbytes frame Hin)).
    destruct frame; [discriminate|reflexivity].
  - unfold Client.decodable. now rewrite H640.
  - clear. 
    assert (H : forall n l, (List.length l <= n)%nat ->
                Client.pcm16_to_f32 l
                = map (fun k => (JsNum.float_of_int16 k / 32768)%float)
                    (MicWorklet.frame_samples l)).
    { induction n as [|n IH]; intros l Hl.
      - destruct l; [reflexivity|cbn in Hl; lia].
      - destruct l as [|lo [|hi rest]]; try reflexivity.
        cbn [Client.pcm16_to_f32 MicWorklet.frame_samples map].
        rewrite (IH rest); [reflexivity|cbn in Hl; lia]. }
    apply (H (List.length frame)). lia.
Qed.

End CaptureFacts.

(** ** The relay: a session as a sequence of events *)

Module SessionFacts.
Import Js Relay Sessions.
Local Open Scope string_scope.

Lemma relay_run_cons s ev trace :
  relay_run s (ev :: trace) = relay_run (deliver s ev) trace.
Proof. reflexivity. Qed.

Lemma relay_run_app s pre post :
  relay_run s (pre ++ post) = relay_run (relay_run s pre) post.
Proof. apply fold_left_app. Qed.

(** The upstream socket is neither connecting nor open. *)
Lemma not_open_cases s :
  upstreamOpen s = false ->
  upstream s = Absent \/ upstream s = Connecting \/ upstream s = Closed.
Proof. unfold upstreamOpen. destruct (upstream s); auto; discriminate. Qed.

(** One event: what is written where, and what becomes of the sockets. *)
Lemma deliver_fields s ev :
  toClient (deliver s ev)
  = (toClient s ++ if clientOpen s then to_client ev else [])%list
  /\ toUpstream (deliver s ev)
     = (toUpstream s ++ if upstreamOpen (arrive s ev) then to_upstream ev else [])%list
  /\ clientOpen (deliver s ev)
     = match ev with
       | UpstreamClosed _ _ | ClientClosed => false
       | _ => clientOpen s
       end
  /\ upstream (deliver s ev)
     = match ev with
       | Connection => Connecting
       | ClientClosed =>
           match upstream s with Absent => Absent | _ => Closed end
       | _ => upstream (arrive s ev)
       end
  /\ upstreamConnections (deliver s ev)
     = (upstreamConnections s + if is_connection ev then 1 else 0)%nat.
Proof.
  unfold deliver, upstreamOpen.
  destruct ev; cbn [handler arrive fold_left apply to_client to_upstream is_connection];
    try destruct isBinary; try destruct parsed;
    cbn [handler arrive fold_left apply to_client to_upstream is_connection];
    destruct (upstream s) eqn:Eu, (clientOpen s) eqn:Ec;
    cbn; rewrite ?Eu, ?Ec; cbn;
    rewrite ?app_nil_r, ?Nat.add_0_r, ?Nat.add_1_r; auto.
Qed.

(** Traffic, seen from the client's socket. *)
Lemma client_traffic_run : forall trace s,
  clientOpen s = true ->
  Forall (fun ev => is_traffic ev = true) trace ->
  toClient (relay_run s trace) = (toClient s ++ flat_map to_client trace)%list
  /\ clientOpen (relay_run s trace) = true
  /\ upstream (relay_run s trace) = upstream s
  /\ upstreamConnections (relay_run s trace) = upstreamConnections s.
Proof.
  induction trace as [|ev trace IH]; intros s Hc Htraffic.
  - cbn. rewrite app_nil_r. auto.
  - rewrite relay_run_cons.
    destruct (deliver_fields s ev) as (E1 & _ & E3 & E4 & E5).
    pose proof (Forall_inv Htraffic) as Hev. cbn beta in Hev.
    rewrite Hc in E1, E3.
    assert (Hc' : clientOpen (deliver s ev) = true)
      by (rewrite E3; destruct ev; try discriminate; reflexivity).
    assert (Hu' : upstream (deliver s ev) = upstream s)
      by (rewrite E4; destruct ev; try discriminate; reflexivity).
    assert (Hn : is_connection ev = false) by (destruct ev; try discriminate; reflexivity).
    rewrite Hn, Nat.add_0_r in E5.
    destruct (IH (deliver s ev) Hc' (Forall_inv_tail Htraffic))
      as (H1 & H2 & H3 & H4).
    rewrite H1, H2, H3, H4, E1, E5, Hu'. cbn [flat_map].
    now rewrite <- !app_assoc.
Qed.

Lemma traffic_run : forall trace s,
  clientOpen s = true -> upstreamOpen s = true ->
  Forall (fun ev => is_traffic ev = true) trace ->
  toClient (relay_run s trace) = (toClient s ++ flat_map to_client trace)%list
  /\ toUpstream (relay_run s trace) = (toUpstream s ++ flat_map to_upstream trace)%list
  /\ clientOpen (relay_run s trace) = true
  /\ upstreamOpen (relay_run s trace) = true
  /\ upstreamConnections (relay_run s trace) = upstreamConnections s.
Proof.
  intros trace s Hc Hu Htraffic.
  destruct (client_traffic_run trace s Hc Htraffic) as (H1 & H2 & H3 & H4).
  split; [exact H1|]. split; [|split; [exact H2|split; [|exact H4]]].
  2:{ unfold upstreamOpen in *. now rewrite H3. }
  clear H1 H2 H3 H4. revert s Hc Hu Htraffic.
  induction trace as [|ev trace IH]; intros s Hc Hu Htraffic.
  - cbn. now rewrite app_nil_r.
  - rewrite relay_run_cons.
    destruct (deliver_fields s ev) as (_ & E2 & E3 & E4 & _).
    pose proof (Forall_inv Htraffic) as Hev. cbn beta in Hev.
    assert (Ha : arrive s ev = s) by (destruct ev; try discriminate; reflexivity).
    rewrite Ha, Hu in E2. rewrite Ha in E4.
    assert (Hc' : clientOpen (deliver s ev) = true)
      by (rewrite E3, Hc; destruct ev; try discriminate; reflexivity).
    assert (Hu' : upstreamOpen (deliver s ev) = true).
    { unfold upstreamOpen in *. rewrite E4.
      destruct ev; try discriminate; exact Hu. }
    rewrite (IH (deliver s ev) Hc' Hu' (Forall_inv_tail Htraffic)), E2.
    cbn [flat_map]. now rewrite <- !app_assoc.
Qed.

Lemma silent_client : forall trace s,
  clientOpen s = false ->
  clientOpen (relay_run s trace) = false
  /\ toClient (relay_run s trace) = toClient s.
Proof.
  induction trace as [|ev trace IH]; intros s Hc; [auto|].
  rewrite relay_run_cons.
  destruct (deliver_fields s ev) as (E1 & _ & E3 & _).
  rewrite Hc, app_nil_r in E1. rewrite Hc in E3.
  assert (Hc' : clientOpen (deliver s ev) = false) by (rewrite E3; now destruct ev).
  destruct (IH (deliver s ev) Hc') as (H1 & H2). now rewrite H1, H2.
Qed.

Lemma silent_upstream : forall trace s,
  upstream s = Absent \/ upstream s = Closed ->
  Forall (fun ev => is_connection ev = false) trace ->
  (upstream (relay_run s trace) = Absent \/ upstream (relay_run s trace) = Closed)
  /\ toUpstream (relay_run s trace) = toUpstream s.
Proof.
  induction trace as [|ev trace IH]; intros s Hu Hconn; [auto|].
  rewrite relay_run_cons.
  destruct (deliver_fields s ev) as (_ & E2 & _ & E4 & _).
  pose proof (Forall_inv Hconn) as Hev. cbn beta in Hev.
  assert (Ha : upstream (arrive s ev) = Absent \/ upstream (arrive s ev) = Closed).
  { destruct ev; cbn [arrive]; auto;
      destruct Hu as [E|E]; rewrite E; cbn; rewrite ?E; auto. }
  assert (Hu' : upstream (deliver s ev) = Absent \/ upstream (deliver s ev) = Closed).
  { rewrite E4. destruct ev; try discriminate; auto.
    destruct Hu as [E|E]; rewrite E; auto. }
  assert (E2' : toUpstream (deliver s ev) = toUpstream s).
  { rewrite E2. unfold upstreamOpen.
    destruct Ha as [-> | ->]; apply app_nil_r. }
  destruct (IH (deliver s ev) Hu' (Forall_inv_tail Hconn)) as (H1 & H2).
  split; [exact H1|]. now rewrite H2.
Qed.

Lemma connections_run : forall trace s,
  upstreamConnections (relay_run s trace)
  = (upstreamConnections s + List.length (filter is_connection trace))%nat.
Proof.
  induction trace as [|ev trace IH]; intros s; [cbn; lia|].
  rewrite relay_run_cons, IH.
  destruct (deliver_fields s ev) as (_ & _ & _ & _ & ->).
  cbn [filter]. destruct (is_connection ev); cbn [List.length]; lia.
Qed.

Lemma no_connection_filter trace :
  Forall (fun ev => is_connection ev = false) trace ->
  filter is_connection trace = [].
Proof.
  induction 1 as [|ev trace Hev _ IH]; [reflexivity|].
  cbn [filter]. now rewrite Hev.
Qed.

(** C4.  An upstream error ends the session.  The [ws] library emits
    [close] on a socket after it has emitted [error] on it, whatever
    traffic is handled in between.  At the error the relay sends the
    client the text of [{ error, detail }], with the error's message as
    [detail]; at the close it closes the client's socket; and it opens no
    upstream connection again, whatever comes afterwards: only the
    handler of a new client connects.  Nothing is written to the client
    after its socket has been closed. *)
Theorem upstream_error_ends_the_session :
  forall (s : session) (message reason : string) (code : Z)
         (between after : list event),
  clientOpen s = true ->
  Forall (fun ev => is_traffic ev = true) between ->
  Forall (fun ev => is_connection ev = false) after ->
  let failure := UpstreamError message :: between ++ [UpstreamClosed code reason] in
  let s' := relay_run s (failure ++ after) in
  toClient s'
  = (toClient s ++ Json (error_envelope message) :: flat_map to_client between)%list
  /\ get (error_envelope message) "error" = Some (VStr "Gemini connection error")
  /\ get (error_envelope message) "detail" = Some (VStr message)
  /\ clientOpen (relay_run s [UpstreamError message]) = true
  /\ clientOpen (relay_run s failure) = false
  /\ clientOpen s' = false
  /\ upstreamOpen s' = false
  /\ upstreamConnections s' = upstreamConnections s
  /\ (forall ev, In UpstreamConnect (handler ev) -> ev = Connection).
Proof.
  intros s message reason code between after Hc Htraffic Hconn failure s'.
  subst s' failure.
  assert (Hhandlers : forall ev, In UpstreamConnect (handler ev) -> ev = Connection).
  { intros ev H. destruct ev; cbn in H; try tauto;
      repeat (destruct H as [H|H]; try discriminate; try tauto).
    destruct isBinary; [|destruct parsed]; cbn in H;
      repeat (destruct H as [H|H]; try discriminate; try tauto). }
  set (s1 := deliver s (UpstreamError message)).
  destruct (deliver_fields s (UpstreamError message)) as (E1 & _ & E3 & E4 & E5).
  fold s1 in E1, E3, E4, E5. rewrite Hc in E1, E3.
  cbn [to_client is_connection arrive] in E1, E4, E5. rewrite Nat.add_0_r in E5.
  destruct (client_traffic_run between s1 E3 Htraffic) as (T1 & T2 & T3 & T4).
  set (s2 := relay_run s1 between) in *.
  set (s3 := deliver s2 (UpstreamClosed code reason)).
  destruct (deliver_fields s2 (UpstreamClosed code reason)) as (C1 & _ & C3 & C4 & C5).
  fold s3 in C1, C3, C4, C5. rewrite T2 in C1.
  cbn [to_client is_connection arrive app] in C1, C4, C5.
  rewrite app_nil_r in C1. rewrite Nat.add_0_r in C5.
  assert (Hgone : upstream s3 = Absent \/ upstream s3 = Closed).
  { rewrite C4. destruct (upstream s2) eqn:E; cbn; rewrite ?E; auto. }
  destruct (silent_client after s3 C3) as (A1 & A2).
  destruct (silent_upstream after s3 Hgone Hconn) as (A3 & _).
  assert (Hrun : relay_run s ((UpstreamError message :: between
                               ++ [UpstreamClosed code reason]) ++ after)
                 = relay_run s3 after).
  { cbn [app]. rewrite relay_run_cons. fold s1.
    rewrite <- app_assoc, relay_run_app. fold s2. reflexivity. }
  assert (Hfail : relay_run s (UpstreamError message :: between
                               ++ [UpstreamClosed code reason]) = s3).
  { rewrite relay_run_cons. fold s1. rewrite relay_run_app. fold s2. reflexivity. }
  rewrite Hrun, Hfail.
  split; [rewrite A2, C1, T1, E1, <- app_assoc; reflexivity|].
  split; [reflexivity|]. split; [reflexivity|].
  split; [exact E3|]. split; [exact C3|]. split; [exact A1|].
  split; [unfold upstreamOpen; destruct A3 as [-> | ->]; reflexivity|].
  split; [|exact Hhandlers].
  rewrite connections_run, (no_connection_filter after Hconn), C5, T4, E5.
  cbn. lia.
Qed.

Lemma upstream_error_ends_the_session_witness :
  let s := relay_run accepted [Connection; UpstreamOpen] in
  let late := [UpstreamMessage "late"; ClientMessage "{}" (Some (VObj [])) false] in
  clientOpen s = true
  /\ toClient (relay_run s (UpstreamError "socket hang up"
                             :: [UpstreamClosed 1006 EmptyString] ++ late))
     = [Json (error_envelope "socket hang up")]
  /\ clientOpen (relay_run s (UpstreamError "socket hang up"
                               :: [UpstreamClosed 1006 EmptyString] ++ late))
     = false
  /\ upstreamConnections (relay_run s (UpstreamError "socket hang up"
                                        :: [UpstreamClosed 1006 EmptyString] ++ late))
     = 1%nat.
Proof.
  intros s late.
  assert (Hc : clientOpen s = true) by reflexivity.
  assert (Hconn : Forall (fun ev => is_connection ev = false) late)
    by (repeat constructor).
  destruct (upstream_error_ends_the_session s "socket hang up" EmptyString 1006 [] late
              Hc (Forall_nil _) Hconn)
    as (H1 & _ & _ & _ & _ & H6 & _ & H8 & _).
  split; [exact Hc|]. split; [exact H1|]. split; [exact H6|exact H8].
Defined.

(** X13.  While both sockets of a session are open, the relay passes the
    traffic on in both directions, each message once and in the order
    received: what comes from upstream goes to the client as it is;
    binary data from the client goes upstream inside the audio envelope
    and text that parses as JSON goes upstream serialized again, while
    text that does not parse is dropped.  Traffic closes neither socket
    and opens no upstream connection. *)
Theorem traffic_is_relayed_in_order :
  forall (s : session) (trace : list event),
  clientOpen s = true -> upstreamOpen s = true ->
  Forall (fun ev => is_traffic ev = true) trace ->
  let s' := relay_run s trace in
  toClient s' = (toClient s ++ flat_map to_client trace)%list
  /\ toUpstream s' = (toUpstream s ++ flat_map to_upstream trace)%list
  /\ clientOpen s' = true /\ upstreamOpen s' = true
  /\ upstreamConnections s' = upstreamConnections s.
Proof.
  intros s trace Hc Hu Htraffic s'. subst s'. now apply traffic_run.
Qed.

Lemma traffic_is_relayed_in_order_witness :
  let s := relay_run accepted [Connection; UpstreamOpen] in
  let bad := String "{" EmptyString in
  clientOpen s = true /\ upstreamOpen s = true
  /\ upstreamOpen (relay_run accepted [Connection]) = false
  /\ toClient (relay_run s [UpstreamMessage bad;
                            ClientMessage bad None false;
                            ClientMessage bad None true;
                            ClientMessage bad (Some VNull) false;
                            UpstreamMessage EmptyString])
     = [Forwarded bad; Forwarded EmptyString]
  /\ toUpstream (relay_run s [UpstreamMessage bad;
                              ClientMessage bad None false;
                              ClientMessage bad None true;
                              ClientMessage bad (Some VNull) false;
                              UpstreamMessage EmptyString])
     = [Json setup; AudioEnvelope bad; Json VNull].
Proof.
  intros s bad.
  assert (Hc : clientOpen s = true) by reflexivity.
  assert (Hu : upstreamOpen s = true) by reflexivity.
  assert (Htraffic : Forall (fun ev => is_traffic ev = true)
                       [UpstreamMessage bad;
                        ClientMessage bad None false;
                        ClientMessage bad None true;
                        ClientMessage bad (Some VNull) false;
                        UpstreamMessage EmptyString])
    by (repeat constructor).
  destruct (traffic_is_relayed_in_order s _ Hc Hu Htraffic) as (H1 & H2 & _).
  split; [exact Hc|]. split; [exact Hu|]. split; [reflexivity|]. split.
  - rewrite H1. reflexivity.
  - rewrite H2. reflexivity.
Defined.



(** X14.  The two sockets of a session go down together, and nothing
    follows: when the client closes, the relay closes the upstream socket
    and nothing more is written to it, whatever comes afterwards; when
    the upstream socket closes, the relay closes the client's and nothing
    more is written to the client.  The relay never opens either of them
    again for this session. *)
Theorem nothing_follows_a_close :
  forall (s : session) (before after : list event),
  Forall (fun ev => is_connection ev = false) after ->
  (let s' := relay_run s (before ++ ClientClosed :: after) in
   upstreamOpen s' = false
   /\ toUpstream s' = toUpstream (relay_run s before))
  /\ (forall code reason,
        let s' := relay_run s (before ++ UpstreamClosed code reason :: after) in
        clientOpen s' = false
        /\ toClient s' = toClient (relay_run s before)).
Proof.
  intros s before after Hconn. split.
  - cbn zeta. rewrite relay_run_app, relay_run_cons.
    set (t := relay_run s before).
    destruct (deliver_fields t ClientClosed) as (_ & E2 & _ & E4 & _).
    cbn [to_upstream] in E2.
    assert (E2' : toUpstream (deliver t ClientClosed) = toUpstream t)
      by (rewrite E2; destruct (upstreamOpen _); apply app_nil_r).
    assert (Hgone : upstream (deliver t ClientClosed) = Absent
                    \/ upstream (deliver t ClientClosed) = Closed)
      by (rewrite E4; destruct (upstream t); auto).
    destruct (silent_upstream after (deliver t ClientClosed) Hgone Hconn) as (H1 & H2).
    rewrite H2. split; [|exact E2'].
    unfold upstreamOpen. destruct H1 as [-> | ->]; reflexivity.
  - intros code reason. cbn zeta. rewrite relay_run_app, relay_run_cons.
    set (t := relay_run s before).
    destruct (deliver_fields t (UpstreamClosed code reason)) as (E1 & _ & E3 & _).
    cbn [to_client] in E1.
    assert (E1' : toClient (deliver t (UpstreamClosed code reason)) = toClient t)
      by (rewrite E1; destruct (clientOpen t); apply app_nil_r).
    destruct (silent_client after (deliver t (UpstreamClosed code reason)) E3)
      as (H1 & H2).
    now rewrite H1, H2.
Qed.

Lemma nothing_follows_a_close_witness :
  let late := [ClientMessage EmptyString (Some VNull) false; UpstreamOpen;
               UpstreamMessage EmptyString; UpstreamError EmptyString] in
  Forall (fun ev => is_connection ev = false) late
  /\ toUpstream (relay_run accepted ([Connection; UpstreamOpen] ++ ClientClosed :: late))
     = [Json setup]
  /\ toClient (relay_run accepted
                 ([Connection; UpstreamOpen] ++ UpstreamClosed 1006 EmptyString :: late))
     = [].
Proof.
  intros late.
  assert (Hconn : Forall (fun ev => is_connection ev = false) late)
    by (repeat constructor).
  destruct (nothing_follows_a_close accepted [Connection; UpstreamOpen] late Hconn)
    as ((_ & H1) & H2).
  destruct (H2 1006 EmptyString) as (_ & H3).
  split; [exact Hconn|]. split.
  - rewrite H1. reflexivity.
  - rewrite H3. reflexivity.
Defined.

(** X15.  One upstream connection for each client connection, and no
    other: over any sequence of events the relay has opened exactly as
    many upstream sockets as clients have connected, so that no event,
    an upstream error or close included, makes it connect again. *)
Theorem one_upstream_socket_per_client :
  forall (s : session) (trace : list event),
  upstreamConnections (relay_run s trace)
  = (upstreamConnections s + List.length (filter is_connection trace))%nat.
Proof.
  intros s trace. apply connections_run.
Qed.

End SessionFacts.
